(** * browsertrix-crawler: configuration resolver and artifact sync

    A shallow embedding of [util/argParser.js] and [util/storage.js].

    JavaScript strings are modelled as lists of 8-bit characters, numbers
    that the code treats as integers (seconds, counts, sizes) as [Z], and
    file contents as lists of bytes.  Dynamically typed option values get
    one inductive type per shape the code distinguishes with [typeof]. *)

From Stdlib Require Import List Ascii ZArith Lia Bool Arith.
From Stdlib Require Strings.String Numbers.DecimalString.
Import ListNotations.

Set Implicit Arguments.

(* ====================================================================== *)
(** ** JavaScript string primitives used by the two source files *)

Module JS.

Definition jstr := list ascii.

Inductive jstr_shape := jnil | jcons (a : ascii) (l : jstr_shape).

Fixpoint jstr_parse (b : list Byte.byte) : jstr_shape :=
  match b with
  | [] => jnil
  | x :: r => jcons (ascii_of_byte x) (jstr_parse r)
  end.

Fixpoint jstr_print (s : jstr_shape) : list Byte.byte :=
  match s with
  | jnil => []
  | jcons x r => byte_of_ascii x :: jstr_print r
  end.

Declare Scope js_scope.
Delimit Scope js_scope with js.
#[warnings="-via-type-remapping,-via-type-mismatch"]
String Notation jstr jstr_parse jstr_print
  (via jstr_shape mapping [[nil] => jnil, [cons] => jcons]) : js_scope.

Open Scope js_scope.

Definition jstr_eqb (a b : jstr) : bool :=
  if list_eq_dec ascii_dec a b then true else false.

(** [s.startsWith(p)] *)
Fixpoint startsWith (s p : jstr) {struct p} : bool :=
  match p with
  | [] => true
  | c :: p' =>
      match s with
      | [] => false
      | d :: s' => Ascii.eqb c d && startsWith s' p'
      end
  end.

(** [s.indexOf(p)], [None] standing for -1. *)
Fixpoint indexOf (s p : jstr) {struct s} : option nat :=
  if startsWith s p then Some 0%nat
  else match s with
       | [] => None
       | _ :: s' => option_map S (indexOf s' p)
       end.

(** The replacement-text expansion of [String.prototype.replace]
    (ECMA-262 GetSubstitution) for a string pattern: there are no capture
    groups, so only [$$], [$&], [$`] and [$'] are special. *)
Fixpoint GetSubstitution (matched before after tpl : jstr) {struct tpl} : jstr :=
  match tpl with
  | [] => []
  | c :: r =>
      match r with
      | d :: r' =>
          if Ascii.eqb c "$" then
            if Ascii.eqb d "$" then "$"%char :: GetSubstitution matched before after r'
            else if Ascii.eqb d "&" then matched ++ GetSubstitution matched before after r'
            else if Ascii.eqb d "`" then before ++ GetSubstitution matched before after r'
            else if Ascii.eqb d "'" then after ++ GetSubstitution matched before after r'
            else c :: GetSubstitution matched before after r
          else c :: GetSubstitution matched before after r
      | [] => [c]
      end
  end.

(** [s.replace(pat, rep)] with a string pattern: the first occurrence only. *)
Definition replace (s pat rep : jstr) : jstr :=
  match indexOf s pat with
  | None => s
  | Some i =>
      let before := firstn i s in
      let after := skipn (i + length pat) s in
      before ++ GetSubstitution pat before after rep ++ after
  end.

(** [s.slice(start)] *)
Definition slice_from (s : jstr) (start : Z) : jstr :=
  let len := Z.of_nat (length s) in
  let from := if (start <? 0)%Z then Z.max (len + start) 0 else Z.min start len in
  skipn (Z.to_nat from) s.

(** [s.split(sep)] for a one-character separator, which is what every
    call site passes. *)
Fixpoint split (sep : ascii) (s : jstr) : list jstr :=
  match s with
  | [] => [[]]
  | c :: s' =>
      if Ascii.eqb c sep then [] :: split sep s'
      else match split sep s' with
           | [] => [[c]]
           | w :: ws => (c :: w) :: ws
           end
  end.

(** [a.join(sep)] *)
Fixpoint join (sep : jstr) (a : list jstr) : jstr :=
  match a with
  | [] => []
  | [x] => x
  | x :: r => x ++ sep ++ join sep r
  end.

(** [a.includes(x)] on an array of strings. *)
Definition includes (a : list jstr) (x : jstr) : bool :=
  existsb (jstr_eqb x) a.

(** Truthiness of a string value. *)
Definition truthy (s : jstr) : bool :=
  match s with [] => false | _ => true end.

(** Truthiness of a string that may be undefined. *)
Definition opt_truthy (v : option jstr) : bool :=
  match v with Some s => truthy s | None => false end.

(** [a || b] on strings that may be undefined. *)
Definition or_else (a : option jstr) (b : jstr) : jstr :=
  match a with
  | Some s => if truthy s then s else b
  | None => b
  end.

End JS.

(* ====================================================================== *)
(** ** Regular expressions, as far as the sources use them *)

Module Rx.
Import JS.
Open Scope js_scope.

Inductive cc_item :=
| Ch (c : ascii)
| Range (lo hi : ascii).

Definition cc := list cc_item.

Definition in_item (c : ascii) (i : cc_item) : bool :=
  match i with
  | Ch d => Ascii.eqb c d
  | Range lo hi => (nat_of_ascii lo <=? nat_of_ascii c)%nat
                   && (nat_of_ascii c <=? nat_of_ascii hi)%nat
  end.

Definition in_class (cl : cc) (c : ascii) : bool := existsb (in_item c) cl.

(** [\w] without the unicode or ignore-case flags: the sixty-three
    WordCharacters of ECMA-262. *)
Definition word : cc :=
  map Ch "abcdefghijklmnopqrstuvwxyzABCDEFGHIJKLMNOPQRSTUVWXYZ0123456789_".

Inductive regex :=
| Void
| Eps
| Class (cl : cc)
| Seq (r1 r2 : regex)
| Star (r : regex).

Fixpoint nullable (r : regex) : bool :=
  match r with
  | Void => false
  | Eps => true
  | Class _ => false
  | Seq a b => nullable a && nullable b
  | Star _ => true
  end.

(** Partial derivatives (Antimirov): the expressions that remain to be
    matched after reading [c]. *)
Fixpoint deriv (c : ascii) (r : regex) : list regex :=
  match r with
  | Void => []
  | Eps => []
  | Class cl => if in_class cl c then [Eps] else []
  | Seq a b =>
      map (fun a' => Seq a' b) (deriv c a)
      ++ (if nullable a then deriv c b else [])
  | Star a => map (fun a' => Seq a' (Star a)) (deriv c a)
  end.

Fixpoint matches_any (rs : list regex) (s : jstr) : bool :=
  match s with
  | [] => existsb nullable rs
  | c :: s' => matches_any (flat_map (deriv c) rs) s'
  end.

(** Whole-string match: the expression between [^] and [$] (no [m] flag). *)
Definition fullmatch (r : regex) (s : jstr) : bool := matches_any [r] s.

(** [s.search(/^r$/)]: 0 when the whole string matches, -1 otherwise. *)
Definition search_anchored (r : regex) (s : jstr) : Z :=
  if fullmatch r s then 0%Z else (-1)%Z.

(** [s.replace(/[cl]/g, "")] *)
Definition remove_class (cl : cc) (s : jstr) : jstr :=
  filter (fun c => negb (in_class cl c)) s.

End Rx.

(* ====================================================================== *)
(** ** JSON.stringify on the values the sources serialise *)

Module Json.
Import JS.
Open Scope js_scope.

#[warnings="-register-all"]
Inductive jsval :=
| JUndefined
| JNull
| JBool (b : bool)
| JNum (n : Z)
| JStr (s : jstr)
| JFunction
| JArr (items : list jsval)
| JObj (props : list (jstr * jsval)).

(** Number-to-string for integers (plain decimal, as JavaScript prints
    every integer below 10^21 in magnitude). *)
Definition Z_to_jstr (n : Z) : jstr :=
  Stdlib.Strings.String.list_ascii_of_string
    (Stdlib.Numbers.DecimalString.NilZero.string_of_int (Z.to_int n)).

Definition hex_digit (n : nat) : ascii :=
  nth n ["0"; "1"; "2"; "3"; "4"; "5"; "6"; "7"; "8"; "9";
         "a"; "b"; "c"; "d"; "e"; "f"]%char "0"%char.

Definition dquote : ascii := "034"%char.

(** QuoteJSONString, one code unit at a time. *)
Definition quote_char (c : ascii) : jstr :=
  let n := nat_of_ascii c in
  if Ascii.eqb c dquote then ["\"%char; dquote]
  else if Ascii.eqb c "\" then "\\"
  else if (n =? 8)%nat then "\b"
  else if (n =? 9)%nat then "\t"
  else if (n =? 10)%nat then "\n"
  else if (n =? 12)%nat then "\f"
  else if (n =? 13)%nat then "\r"
  else if (n <? 32)%nat then "\u00" ++ [hex_digit (n / 16); hex_digit (n mod 16)]
  else [c].

Definition quote (s : jstr) : jstr :=
  dquote :: flat_map quote_char s ++ [dquote].

(** SerializeJSONProperty: [None] is the JavaScript [undefined] result.
    Properties are serialised in the order the object lists them. *)
Fixpoint serialize (v : jsval) : option jstr :=
  match v with
  | JUndefined => None
  | JFunction => None
  | JNull => Some "null"
  | JBool true => Some "true"
  | JBool false => Some "false"
  | JNum n => Some (Z_to_jstr n)
  | JStr s => Some (quote s)
  | JArr items =>
      Some ("[" ++ join ","
                   (map (fun x => match serialize x with
                                  | Some t => t
                                  | None => "null"
                                  end) items) ++ "]")
  | JObj props =>
      Some ("{" ++ join ","
                   (flat_map (fun kv => match serialize (snd kv) with
                                        | Some t => [quote (fst kv) ++ ":" ++ t]
                                        | None => []
                                        end) props) ++ "}")
  end.

(** [JSON.stringify(v)] where [v] is an object or array: always a string. *)
Definition stringify (v : jsval) : jstr :=
  match serialize v with
  | Some t => t
  | None => "undefined"
  end.

(** *** Ordinary objects as ordered property lists *)

Definition obj := list (jstr * jsval).

Definition is_digit (c : ascii) : bool :=
  (48 <=? nat_of_ascii c)%nat && (nat_of_ascii c <=? 57)%nat.

Definition digits_value (s : jstr) : N :=
  fold_left (fun acc c => (acc * 10 + (N_of_ascii c - 48))%N) s 0%N.

(** A canonical array index: ["0"], or digits without a leading zero, with
    value below 2^32 - 1.  Such keys are enumerated first, ascending. *)
Definition array_index (k : jstr) : option N :=
  match k with
  | [] => None
  | c :: r =>
      if forallb is_digit k
         && (negb (Ascii.eqb c "0") || match r with [] => true | _ => false end)
         && (length k <=? 10)%nat
         && (digits_value k <? 4294967295)%N
      then Some (digits_value k) else None
  end.

Fixpoint has_key (k : jstr) (o : obj) : bool :=
  match o with
  | [] => false
  | (k', _) :: r => jstr_eqb k k' || has_key k r
  end.

Fixpoint get (k : jstr) (o : obj) : jsval :=
  match o with
  | [] => JUndefined
  | (k', v) :: r => if jstr_eqb k k' then v else get k r
  end.

Fixpoint overwrite (k : jstr) (v : jsval) (o : obj) : obj :=
  match o with
  | [] => []
  | (k', v') :: r =>
      if jstr_eqb k k' then (k', v) :: r else (k', v') :: overwrite k v r
  end.

Fixpoint insert_index (n : N) (k : jstr) (v : jsval) (o : obj) : obj :=
  match o with
  | [] => [(k, v)]
  | (k', v') :: r =>
      match array_index k' with
      | Some m => if (n <? m)%N then (k, v) :: o
                  else (k', v') :: insert_index n k v r
      | None => (k, v) :: o
      end
  end.

(** Creating or replacing an own data property, as an object literal or a
    spread does. *)
Definition define (k : jstr) (v : jsval) (o : obj) : obj :=
  if has_key k o then overwrite k v o
  else match array_index k with
       | Some n => insert_index n k v o
       | None => o ++ [(k, v)]
       end.

Definition is_object (v : jsval) : bool :=
  match v with
  | JArr _ | JObj _ | JFunction => true
  | _ => false
  end.

(** [o[k] = v] on an ordinary object: assigning a primitive to [__proto__]
    reaches the inherited setter and leaves the object as it is. *)
Definition set (k : jstr) (v : jsval) (o : obj) : obj :=
  if jstr_eqb k "__proto__" && negb (has_key k o) then
    (if is_object v then define k v o else o)
  else define k v o.

(** [{...a, ...b}] *)
Definition spread (a b : obj) : obj :=
  fold_left (fun o kv => define (fst kv) (snd kv) o) b a.

(** Names every ordinary object inherits from [Object.prototype]. *)
Definition inherited : list jstr :=
  ["constructor"; "__defineGetter__"; "__defineSetter__"; "hasOwnProperty";
   "__lookupGetter__"; "__lookupSetter__"; "isPrototypeOf";
   "propertyIsEnumerable"; "toString"; "valueOf"; "__proto__";
   "toLocaleString"].

(** [k in o] *)
Definition in_op (k : jstr) (o : obj) : bool :=
  has_key k o || includes inherited k.

End Json.

(* ====================================================================== *)
(** ** SHA-256 (FIPS 180-4), the digest [createHash("sha256")] computes *)

Module Sha256.
Open Scope Z_scope.

Definition w32 (x : Z) : Z := x mod 2 ^ 32.
Definition add32 (x y : Z) : Z := w32 (x + y).
Definition rotr (n x : Z) : Z :=
  Z.lor (Z.shiftr x n) (w32 (Z.shiftl x (32 - n))).
Definition not32 (x : Z) : Z := Z.lxor x (2 ^ 32 - 1).

Definition Ch (x y z : Z) : Z := Z.lxor (Z.land x y) (Z.land (not32 x) z).
Definition Maj (x y z : Z) : Z :=
  Z.lxor (Z.lxor (Z.land x y) (Z.land x z)) (Z.land y z).
Definition Sigma0 (x : Z) : Z := Z.lxor (Z.lxor (rotr 2 x) (rotr 13 x)) (rotr 22 x).
Definition Sigma1 (x : Z) : Z := Z.lxor (Z.lxor (rotr 6 x) (rotr 11 x)) (rotr 25 x).
Definition sigma0 (x : Z) : Z := Z.lxor (Z.lxor (rotr 7 x) (rotr 18 x)) (Z.shiftr x 3).
Definition sigma1 (x : Z) : Z := Z.lxor (Z.lxor (rotr 17 x) (rotr 19 x)) (Z.shiftr x 10).

(** The round constants are the first 32 fractional bits of the cube roots
    of the first 64 primes, the initial hash value those of the square
    roots of the first 8. *)
Definition is_prime (n : nat) : bool :=
  (2 <=? n)%nat && forallb (fun d => negb (n mod d =? 0)%nat) (seq 2 (n - 2)).

Definition primes : list Z :=
  Eval vm_compute in map Z.of_nat (filter is_prime (seq 2 310)).

Fixpoint cube_root_bits (bits : nat) (n r : Z) : Z :=
  match bits with
  | O => r
  | S b =>
      let r' := r + 2 ^ Z.of_nat b in
      cube_root_bits b n (if r' * r' * r' <=? n then r' else r)
  end.

Definition K : list Z :=
  Eval vm_compute in
    map (fun p => w32 (cube_root_bits 36 (p * 2 ^ 96) 0)) primes.

Definition H0 : list Z :=
  Eval vm_compute in
    map (fun p => w32 (Z.sqrt (p * 2 ^ 64))) (firstn 8 primes).

Definition byte_val (b : Byte.byte) : Z := Z.of_N (Byte.to_N b).

(** Padding: a 1 bit, zeros up to 56 mod 64, the bit length on 8 bytes. *)
Definition be_bytes (n : nat) (x : Z) : list Z :=
  map (fun i => (x / 2 ^ (8 * Z.of_nat i)) mod 256) (rev (seq 0 n)).

Definition pad (msg : list Z) : list Z :=
  let len := Z.of_nat (length msg) in
  let zeros := Z.to_nat ((55 - len) mod 64) in
  msg ++ [128] ++ repeat 0 zeros ++ be_bytes 8 (8 * len).

Fixpoint words (fuel : nat) (bs : list Z) : list Z :=
  match fuel with
  | O => []
  | S f =>
      match bs with
      | a :: b :: c :: d :: r =>
          (((a * 256 + b) * 256 + c) * 256 + d) :: words f r
      | _ => []
      end
  end.

(** The message schedule, latest word first. *)
Fixpoint schedule (n : nat) (w : list Z) : list Z :=
  match n with
  | O => w
  | S m =>
      let x := add32 (add32 (sigma1 (nth 1 w 0)) (nth 6 w 0))
                     (add32 (sigma0 (nth 14 w 0)) (nth 15 w 0)) in
      schedule m (x :: w)
  end.

Definition state := list Z.

Definition round (st : state) (kw : Z * Z) : state :=
  match st with
  | [a; b; c; d; e; f; g; h] =>
      let t1 := add32 (add32 (add32 h (Sigma1 e)) (add32 (Ch e f g) (fst kw))) (snd kw) in
      let t2 := add32 (Sigma0 a) (Maj a b c) in
      [add32 t1 t2; a; b; c; add32 d t1; e; f; g]
  | _ => st
  end.

Definition compress (h : state) (block : list Z) : state :=
  let w := rev (schedule 48 (rev block)) in
  map (fun p => add32 (fst p) (snd p))
      (combine h (fold_left round (combine K w) h)).

Fixpoint blocks (fuel : nat) (ws : list Z) : list (list Z) :=
  match fuel with
  | O => []
  | S f =>
      match ws with
      | [] => []
      | _ => firstn 16 ws :: blocks f (skipn 16 ws)
      end
  end.

Definition digest_words (msg : list Byte.byte) : list Z :=
  let padded := pad (map byte_val msg) in
  let ws := words (length padded) padded in
  fold_left compress (blocks (length ws) ws) H0.

Definition digest (msg : list Byte.byte) : list Z :=
  flat_map (be_bytes 4) (digest_words msg).

End Sha256.

(** Lower-case hexadecimal, as [hash.digest("hex")] prints it. *)
Definition hex_of_bytes (bs : list Z) : JS.jstr :=
  flat_map (fun b => [Json.hex_digit (Z.to_nat (b / 16));
                      Json.hex_digit (Z.to_nat (b mod 16))]) bs.


(* ====================================================================== *)
(** ** Effects: exceptions and a threaded state

    [await] is sequencing; a rejected promise and a [throw] are both
    [Throw]. *)

Module Eff.
Import JS.

Inductive exn :=
| Error (message : jstr)
| TypeError (message : jstr)
| FsError (path : jstr)
| StoreError (bucket key : jstr)
| FetchError (url : jstr)
| RedisError (url : jstr)
| Foreign (what : jstr).

Inductive outcome (A : Type) :=
| Ok (a : A)
| Throw (e : exn).
Arguments Ok {A} a.
Arguments Throw {A} e.

Definition M (S A : Type) : Type := S -> outcome A * S.

Definition ret {S A} (a : A) : M S A := fun s => (Ok a, s).

Definition bind {S A B} (c : M S A) (k : A -> M S B) : M S B :=
  fun s => match c s with
           | (Ok a, s') => k a s'
           | (Throw e, s') => (Throw e, s')
           end.

Definition throw {S A} (e : exn) : M S A := fun s => (Throw e, s).

Definition modify {S} (f : S -> S) : M S unit := fun s => (Ok tt, f s).

Definition gets {S A} (f : S -> A) : M S A := fun s => (Ok (f s), s).

Definition lift {S A} (o : outcome A) : M S A := fun s => (o, s).

Definition when {S} (b : bool) (c : M S unit) : M S unit :=
  if b then c else ret tt.

Declare Scope eff_scope.
Delimit Scope eff_scope with eff.
Notation "x <- c ;; k" := (bind c (fun x => k))
  (at level 61, c at next level, right associativity) : eff_scope.
Notation "c ;; k" := (bind c (fun _ => k))
  (at level 61, right associativity) : eff_scope.

End Eff.

(* ====================================================================== *)
(** ** util/storage.js *)

Module Storage.
Import JS Rx Json Eff.
Open Scope js_scope.
Open Scope eff_scope.

Definition filedata := list Byte.byte.

(** The object [uploadFile] returns: [{path, hash, bytes}]. *)
Record Resource := {
  path : jstr;
  hash : jstr;
  bytes : Z
}.

Inductive event :=
| ConsoleLog (line : jstr)
| ConsoleLogResource (r : Resource)
| FPutObject (bucket key src : jstr)
| ReadStream (file : jstr)
| FsStat (file : jstr)
| Fetch (url method body : jstr)
| InitRedis (url : jstr)
| RPush (conn key value : jstr).

(** What the process can observe and change: the local files, the object
    store, the redis lists per connection URL, and the order in which the
    calls happened.  [store_up], [http_up] and [redis_up] say which remote
    calls succeed. *)
Record world := {
  files : jstr -> option filedata;
  store_up : jstr -> jstr -> bool;
  http_up : jstr -> bool;
  redis_up : jstr -> bool;
  objects : jstr -> jstr -> option filedata;
  connections : list jstr;
  lists : jstr -> jstr -> list jstr;
  trace : list event
}.

Definition emit (e : event) : M world unit :=
  modify (fun w =>
    {| files := files w; store_up := store_up w; http_up := http_up w;
       redis_up := redis_up w; objects := objects w;
       connections := connections w; lists := lists w;
       trace := trace w ++ [e] |}).

Definition console_log (line : jstr) : M world unit := emit (ConsoleLog line).

(** The fields the constructor leaves on an [S3StorageSync] instance (the
    Minio client is the [objects] part of the world). *)
Record S3StorageSync := {
  fullPrefix : jstr;
  bucketName : jstr;
  objectPrefix : jstr;
  userId : option jstr;
  crawlId : option jstr;
  webhookUrl : option jstr
}.

(** The parts of a parsed URL the constructor reads. *)
Record URL := {
  href : jstr;
  pathname : jstr
}.

(** The first argument of the constructor: a URL string with credentials,
    or [{endpointUrl, accessKey, secretKey}]. *)
Inductive urlOrData :=
| UrlString (url : jstr)
| StoreInfo (endpointUrl : jstr) (accessKey secretKey : option jstr).

(** The second argument: [{webhookUrl, userId, crawlId}]. *)
Record Options := {
  opt_webhookUrl : option jstr;
  opt_userId : option jstr;
  opt_crawlId : option jstr
}.

(** The environment variables [initStorage] reads. *)
Record ProcessEnv := {
  STORE_ENDPOINT_URL : option jstr;
  STORE_PATH : option jstr;
  STORE_ACCESS_KEY : option jstr;
  STORE_SECRET_KEY : option jstr;
  CRAWL_ID : option jstr;
  WEBHOOK_URL : option jstr;
  STORE_USER : option jstr
}.

Section Construction.

(** [new URL(s)], [None] when it throws, and the URL once its user name
    and password are set to the empty string. *)
Variable new_URL : jstr -> option URL.
Variable without_credentials : URL -> URL.

(** Lines 17-57; the Minio client it creates is the [objects] part of the
    world. *)
Definition construct (data : urlOrData) (opts : Options) : outcome S3StorageSync :=
  let parsed :=
    match data with
    | UrlString s => option_map without_credentials (new_URL s)
    | StoreInfo endpointUrl _ _ => new_URL endpointUrl
    end in
  match parsed with
  | None => Throw (TypeError "Invalid URL")
  | Some url =>
      let bucketName := hd "" (split "/" (slice_from (pathname url) 1)) in
      Ok {| fullPrefix := href url;
            bucketName := bucketName;
            objectPrefix :=
              slice_from (pathname url) (Z.of_nat (length bucketName) + 2);
            userId := opt_userId opts;
            crawlId := opt_crawlId opts;
            webhookUrl := opt_webhookUrl opts |}
  end.

(** Lines 111-131: [null] without a store endpoint. *)
Definition initStorage (env : ProcessEnv) (os_hostname : jstr)
  : M world (option S3StorageSync) :=
  if negb (opt_truthy (STORE_ENDPOINT_URL env)) then ret None
  else
    let endpointUrl :=
      or_else (STORE_ENDPOINT_URL env) "" ++ or_else (STORE_PATH env) "" in
    let storeInfo :=
      StoreInfo endpointUrl (STORE_ACCESS_KEY env) (STORE_SECRET_KEY env) in
    let opts :=
      {| opt_crawlId := Some (or_else (CRAWL_ID env) os_hostname);
         opt_webhookUrl := WEBHOOK_URL env;
         opt_userId := STORE_USER env |} in
    console_log "Initing Storage..." ;;
    storage <- lift (construct storeInfo opts) ;;
    ret (Some storage).

End Construction.

(** String conversion of a possibly undefined string in a template. *)
Definition show (v : option jstr) : jstr :=
  match v with Some s => s | None => "undefined" end.

Definition opt_val (v : option jstr) : jsval :=
  match v with Some s => JStr s | None => JUndefined end.

(** [client.fPutObject(bucket, key, file)] *)
Definition fPutObject (bucket key src : jstr) : M world unit :=
  emit (FPutObject bucket key src) ;;
  fs <- gets files ;;
  up <- gets store_up ;;
  match fs src with
  | None => throw (FsError src)
  | Some data =>
      if up bucket key then
        modify (fun w =>
          {| files := files w; store_up := store_up w; http_up := http_up w;
             redis_up := redis_up w;
             objects := fun b k => if jstr_eqb b bucket && jstr_eqb k key
                                   then Some data else objects w b k;
             connections := connections w; lists := lists w;
             trace := trace w |})
      else throw (StoreError bucket key)
  end.

(** [fs.createReadStream(path)]: the chunks the [data] events deliver, each
    at most [highWaterMark] (64 KiB) long. *)
Definition highWaterMark : N := 65536.

Fixpoint read_chunks (room : N) (cur : filedata) (rest : filedata)
  : list filedata :=
  match rest with
  | [] => match cur with [] => [] | _ => [rev cur] end
  | b :: r =>
      if (room =? 0)%N
      then rev cur :: read_chunks (highWaterMark - 1) [b] r
      else read_chunks (room - 1) (b :: cur) r
  end.

Definition createReadStream (file : jstr) : M world (list filedata) :=
  emit (ReadStream file) ;;
  fs <- gets files ;;
  match fs file with
  | None => throw (FsError file)
  | Some data => ret (read_chunks highWaterMark [] data)
  end.

(** [crypto.createHash]: the hash object accumulates what [update] feeds. *)
Record Hash := {
  algorithm : jstr;
  absorbed : filedata
}.

Definition createHash (hashName : jstr) : outcome Hash :=
  if jstr_eqb hashName "sha256"
  then Ok {| algorithm := hashName; absorbed := [] |}
  else Throw (Error "Digest method not supported").

Definition update (h : Hash) (chunk : filedata) : Hash :=
  {| algorithm := algorithm h; absorbed := absorbed h ++ chunk |}.

Definition digest_hex (h : Hash) : jstr :=
  hex_of_bytes (Sha256.digest (absorbed h)).

Definition checksumFile (hashName file : jstr) : M world jstr :=
  h <- lift (createHash hashName) ;;
  chunks <- createReadStream file ;;
  ret (digest_hex (fold_left update chunks h)).

Definition getFileSize (filename : jstr) : M world Z :=
  emit (FsStat filename) ;;
  fs <- gets files ;;
  match fs filename with
  | None => throw (FsError filename)
  | Some data => ret (Z.of_nat (length data))
  end.

Definition uploadFile (this : S3StorageSync) (srcFilename targetFilename : jstr)
  : M world Resource :=
  console_log ("Bucket: " ++ bucketName this) ;;
  console_log ("Crawl Id: " ++ show (crawlId this)) ;;
  console_log ("Prefix: " ++ objectPrefix this) ;;
  console_log ("Target Filename: " ++ targetFilename) ;;
  fPutObject (bucketName this) (objectPrefix this ++ targetFilename) srcFilename ;;
  finalHash <- checksumFile "sha256" srcFilename ;;
  size <- getFileSize srcFilename ;;
  ret {| path := targetFilename; hash := finalHash; bytes := size |}.

(** [client.fGetObject(bucket, key, file)]: the bytes of the object are
    written to the local file.  Downloads leave no entry in [trace]. *)
Definition fGetObject (bucket key dest : jstr) : M world unit :=
  objs <- gets objects ;;
  up <- gets store_up ;;
  if up bucket key then
    match objs bucket key with
    | Some data =>
        modify (fun w =>
          {| files := fun p => if jstr_eqb p dest then Some data else files w p;
             store_up := store_up w; http_up := http_up w;
             redis_up := redis_up w; objects := objects w;
             connections := connections w; lists := lists w;
             trace := trace w |})
    | None => throw (StoreError bucket key)
    end
  else throw (StoreError bucket key).

(** Lines 73-75 *)
Definition downloadFile (this : S3StorageSync) (srcFilename destFilename : jstr)
  : M world unit :=
  fGetObject (bucketName this) (objectPrefix this ++ srcFilename) destFilename.

(** [fetch(url, {method, body})]: rejects only when the request cannot be
    made. *)
Definition fetch (url method body : jstr) : M world unit :=
  emit (Fetch url method body) ;;
  up <- gets http_up ;;
  if up url then ret tt else throw (FetchError url).

(** Modelled from the spec: [initRedis] of [util/redis.js], which is not
    part of the sources at hand.  A connection is obtained, lazily
    initialised, process-wide and keyed by the connection URL. *)
Definition initRedis (url : jstr) : M world jstr :=
  emit (InitRedis url) ;;
  conns <- gets connections ;;
  up <- gets redis_up ;;
  if includes conns url then ret url
  else if up url then
    modify (fun w =>
      {| files := files w; store_up := store_up w; http_up := http_up w;
         redis_up := redis_up w; objects := objects w;
         connections := connections w ++ [url]; lists := lists w;
         trace := trace w |}) ;;
    ret url
  else throw (RedisError url).

(** [redis.rpush(key, value)]: append at the tail of the list. *)
Definition rpush (conn key value : jstr) : M world unit :=
  emit (RPush conn key value) ;;
  modify (fun w =>
    {| files := files w; store_up := store_up w; http_up := http_up w;
       redis_up := redis_up w; objects := objects w;
       connections := connections w;
       lists := fun c k => if jstr_eqb c conn && jstr_eqb k key
                           then lists w c k ++ [value] else lists w c k;
       trace := trace w |}).

(** The notification object built in [uploadCollWACZ]. *)
Definition notification (this : S3StorageSync) (targetFilename : jstr)
  (resource : Resource) (completed : bool) : jsval :=
  JObj [("id", opt_val (crawlId this));
        ("user", opt_val (userId this));
        ("filename", JStr (fullPrefix this ++ targetFilename));
        ("hash", JStr (hash resource));
        ("size", JNum (bytes resource));
        ("completed", JBool completed)].

Definition redis_format_error : jstr :=
  "redis webhook url must be in format: redis://<host>:<port>/<db>/<key>".

(** Lines 81-107: what happens with the resource once it is uploaded. *)
Definition notify (this : S3StorageSync) (targetFilename : jstr)
  (resource : Resource) (completed : bool) : M world unit :=
  match webhookUrl this with
  | None => ret tt
  | Some url =>
      if truthy url then
        let body := notification this targetFilename resource completed in
        console_log ("Pinging Webhook: " ++ url) ;;
        if startsWith url "http://" || startsWith url "https://" then
          fetch url "POST" (stringify body)
        else if startsWith url "redis://" then
          let parts := split "/" url in
          if negb (length parts =? 5)%nat then
            throw (Error redis_format_error)
          else
            redis <- initRedis (join "/" (firstn 4 parts)) ;;
            rpush redis (nth 4 parts "") (stringify body)
        else ret tt
      else ret tt
  end.

(** [completed] defaults to [true] when the caller leaves it out. *)
Definition uploadCollWACZ (this : S3StorageSync)
  (srcFilename targetFilename : jstr) (completed : option bool)
  : M world unit :=
  let completed := match completed with Some b => b | None => true end in
  resource <- uploadFile this srcFilename targetFilename ;;
  emit (ConsoleLogResource resource) ;;
  notify this targetFilename resource completed.

(** The clock and the host name [interpolateFilename] reads. *)
Record Host := {
  now_iso : jstr;      (* new Date().toISOString() *)
  hostname : jstr      (* os.hostname() *)
}.

Definition ts_strip : cc := [Ch ":"; Ch "T"; Ch "Z"; Ch "z"; Ch "."; Ch "-"].

Definition interpolateFilename (host : Host) (filename crawlId : jstr) : jstr :=
  let filename := replace filename "@ts" (remove_class ts_strip (now_iso host)) in
  let filename := replace filename "@hostname" (hostname host) in
  let filename := replace filename "@hostsuffix" (slice_from (hostname host) (-14)) in
  let filename := replace filename "@id" crawlId in
  filename.

End Storage.


(* ====================================================================== *)
(** ** util/argParser.js *)

Module ArgParser.
Import JS Rx Json Eff.
Open Scope js_scope.
Open Scope eff_scope.
Open Scope Z_scope.

(** An option that is a string or an array of strings
    ([typeof x != "object"] tells them apart). *)
Inductive strOrArr :=
| Str (s : jstr)
| Arr (a : list jstr).

(** A seed is a URL string or an object with a [url] and overrides. *)
Inductive seed :=
| SeedStr (url : jstr)
| SeedObj (o : obj).

Inductive seedsVal :=
| SeedsStr (s : jstr)
| SeedsArr (l : list seed).

(** [newContext]: [null] or a string on input, one of the two concurrency
    implementations on output. *)
Inductive newContextVal :=
| NCNull
| NCStr (s : jstr)
| ReuseWindowConcurrency
| CONCURRENCY_PAGE.

Inductive console :=
| log (line : jstr)
| warn (line : jstr).

Definition nl : jstr := ["010"%char].

(** Modelled from the spec: [WAIT_UNTIL_OPTS] of [util/constants.js], the
    four known browser-wait conditions. *)
Definition WAIT_UNTIL_OPTS : list jstr :=
  ["load"; "domcontentloaded"; "networkidle0"; "networkidle2"].

(** [/^[\w][\w-]*$/] *)
Definition collection_rx : regex :=
  Seq (Class word) (Star (Class (word ++ [Ch "-"]))).

Definition invalid_collection (name : jstr) : jstr :=
  nl ++ name ++ " is an invalid collection name. Please supply a collection name only using alphanumeric characters and the following characters [_ - ]" ++ nl.

Definition opt_str_val (v : option jstr) : jsval :=
  match v with Some s => JStr s | None => JUndefined end.

Definition strOrArr_val (v : option strOrArr) : jsval :=
  match v with
  | None => JUndefined
  | Some (Str s) => JStr s
  | Some (Arr a) => JArr (map JStr a)
  end.

(** Lines 324-328: the arguments [parseArgs] hands to yargs, the given
    ones (or the process's) followed by the words of [CRAWL_ARGS]. *)
Definition effective_argv (argv : option (list jstr)) (process_argv : list jstr)
  (CRAWL_ARGS : option jstr) : list jstr :=
  let argv := match argv with Some a => a | None => process_argv end in
  if opt_truthy CRAWL_ARGS
  then argv ++ split " " (or_else CRAWL_ARGS "")
  else argv.

Section Resolver.

Variables Device ScopedSeed : Type.

(** What [validateArgs] reaches outside the file. *)
Record Collaborators := {
  host : Storage.Host;
  readFileSync : jstr -> option jstr;
  devices : jstr -> option Device;
  newScopedSeed : obj -> outcome ScopedSeed;
  screenshotTypes : obj;
  BEHAVIOR_LOG_FUNC : jsval;
  path_resolve : jstr -> jstr -> jstr
}.

(** The option bag [validateArgs] reads and rewrites in place. *)
Record Argv := {
  collection : jstr;
  crawlId : jstr;
  timeout : Z;
  waitUntil : strOrArr;
  screenshot : strOrArr;
  logging : strOrArr;
  behaviors : strOrArr;
  behaviorTimeout : Z;
  behaviorsLogDebug : option bool;
  behaviorOpts : option jstr;
  newContext : newContextVal;
  workers : Z;
  mobileDevice : option jstr;
  emulateDevice : option Device;
  seedFile : option jstr;
  seeds : seedsVal;
  netIdleWait : Z;
  scopeType : option jstr;
  include : option strOrArr;
  exclude : option strOrArr;
  sitemap : jsval;
  depth : Z;
  extraHops : Z;
  scopedSeeds : list ScopedSeed;
  statsFilename : option jstr;
  cwd : jstr
}.

Variable env : Collaborators.

Definition R := M (list console).

Definition say (c : console) : R unit := modify (fun out => out ++ [c]).

(** Lines 362-370 *)
Definition resolveWaitUntil (v : strOrArr) : R (list jstr) :=
  let opts := match v with Str s => split "," s | Arr a => a end in
  if forallb (includes WAIT_UNTIL_OPTS) opts then ret opts
  else throw (Error ("Invalid waitUntil option, must be one of: "
                     ++ join "," WAIT_UNTIL_OPTS)).

(** Lines 373-383.  [screenshotTypes] is an ordinary object, which a
    template literal prints as [[object Object]]. *)
Fixpoint filterScreenshots (passed acc : list jstr) : R (list jstr) :=
  match passed with
  | [] => ret acc
  | element :: rest =>
      if in_op element (screenshotTypes env) then
        filterScreenshots rest (acc ++ [element])
      else
        say (log (element ++ " not found in [object Object]")) ;;
        filterScreenshots rest acc
  end.

Definition resolveScreenshot (v : strOrArr) : R strOrArr :=
  match v with
  | Str s =>
      if truthy s then
        kept <- filterScreenshots (split "," s) [] ;;
        ret (Arr kept)
      else ret v
  | Arr _ => throw (TypeError "argv.screenshot.split is not a function")
  end.

(** Line 386 *)
Definition resolveLogging (v : strOrArr) : R (list jstr) :=
  match v with
  | Str s => ret (split "," s)
  | Arr _ => throw (TypeError "argv.logging.split is not a function")
  end.

(** Lines 389-402: the composed [behaviorOpts] object, the resolved
    [behaviorTimeout] and [behaviorsLogDebug]. *)
Definition composeBehaviorOpts (behaviors : list jstr) (behaviorTimeout : Z)
  (logging : list jstr) (behaviorsLogDebug : option bool)
  : obj * Z * option bool :=
  let behaviorOpts := fold_left (fun o x => set x (JBool true) o) behaviors [] in
  let '(behaviorOpts, behaviorTimeout) :=
    if (behaviorTimeout =? 0) then (behaviorOpts, behaviorTimeout)
    else (set "timeout" (JNum (behaviorTimeout * 1000)) behaviorOpts,
          behaviorTimeout * 1000) in
  if includes logging "behaviors" then
    (set "log" (BEHAVIOR_LOG_FUNC env) behaviorOpts, behaviorTimeout,
     behaviorsLogDebug)
  else if includes logging "behaviors-debug" then
    (set "log" (BEHAVIOR_LOG_FUNC env) behaviorOpts, behaviorTimeout,
     Some true)
  else (behaviorOpts, behaviorTimeout, behaviorsLogDebug).

(** Lines 405-415 *)
Definition resolveNewContext (v : newContextVal) (workers : Z) : R newContextVal :=
  when (match v with NCStr s => truthy s | NCNull => false | _ => true end)
       (say (log "Note: The newContext argument is deprecated in 0.8.0. Values passed to this option will be ignored")) ;;
  if 1 <? workers then
    say (log "Window context being used to support >1 workers") ;;
    ret ReuseWindowConcurrency
  else
    say (log "Page context being used with 1 worker") ;;
    ret CONCURRENCY_PAGE.

(** Lines 417-422 *)
Definition resolveDevice (mobileDevice : option jstr) (old : option Device)
  : R (option Device) :=
  match mobileDevice with
  | Some name =>
      if truthy name then
        match devices env name with
        | Some d => ret (Some d)
        | None => throw (Error ("Unknown device: " ++ name))
        end
      else ret old
  | None => ret old
  end.

(** Lines 424-437 *)
Definition mergeSeedFile (seedFile : option jstr) (seeds : seedsVal) : R seedsVal :=
  if opt_truthy seedFile then
    let file := match seedFile with Some f => f | None => [] end in
    match readFileSync env file with
    | None => throw (FsError file)
    | Some urlSeedFile =>
        let urlSeedFileList := split "010" urlSeedFile in
        let seeds := match seeds with
                     | SeedsStr s => [SeedStr s]
                     | SeedsArr l => l
                     end in
        ret (SeedsArr
               (fold_left (fun seeds seed =>
                             if truthy seed then seeds ++ [SeedStr seed] else seeds)
                          urlSeedFileList seeds))
    end
  else ret seeds.

Definition scope_is (scopeType : option jstr) (name : jstr) : bool :=
  match scopeType with Some s => jstr_eqb s name | None => false end.

(** Lines 439-446 *)
Definition resolveNetIdleWait (netIdleWait : Z) (scopeType : option jstr) : R Z :=
  if netIdleWait =? -1 then
    let netIdleWait :=
      if scope_is scopeType "page" || scope_is scopeType "page-spa" then 15 else 2 in
    say (log ("Set netIdleWait to " ++ Z_to_jstr netIdleWait ++ " seconds")) ;;
    ret netIdleWait
  else ret netIdleWait.

(** The test of line 449: a string, or an array with elements. *)
Definition include_given (include : option strOrArr) : bool :=
  match include with
  | None => false
  | Some (Str s) => truthy s
  | Some (Arr a) => negb (length a =? 0)%nat
  end.

Definition scope_warning : jstr :=
  "You've specified a --scopeType and a --scopeIncludeRx / --include regex. The custom scope regex will take precedence, overriding the scopeType".

(** Lines 448-454 *)
Definition resolveScopeType (include : option strOrArr) (scopeType : option jstr)
  : R (option jstr) :=
  if include_given include then
    if opt_truthy scopeType && negb (scope_is scopeType "custom") then
      say (warn scope_warning) ;;
      ret (Some "custom")
    else ret scopeType
  else ret scopeType.

(** [for (let seed of argv.seeds)]: a string is iterated by character. *)
Definition seeds_iter (seeds : seedsVal) : list seed :=
  match seeds with
  | SeedsStr s => map (fun c => SeedStr [c]) s
  | SeedsArr l => l
  end.

(** Lines 465-472 *)
Fixpoint buildScopedSeeds (scopeOpts : obj) (seeds : list seed)
  (acc : list ScopedSeed) : R (list ScopedSeed) :=
  match seeds with
  | [] => ret acc
  | seed :: rest =>
      let seed := match seed with
                  | SeedStr url => [("url", JStr url)]
                  | SeedObj o => o
                  end in
      scoped <- lift (newScopedSeed env (spread scopeOpts seed)) ;;
      buildScopedSeeds scopeOpts rest (acc ++ [scoped])
  end.

(** Lines 357-479 *)
Definition afterCollection (argv : Argv) (collection : jstr) : R Argv :=
  let timeout := timeout argv * 1000 in
  waitUntil <- resolveWaitUntil (waitUntil argv) ;;
  screenshot <- resolveScreenshot (screenshot argv) ;;
  logging <- resolveLogging (logging argv) ;;
  let behaviors := match behaviors argv with
                   | Str s => split "," s
                   | Arr a => a
                   end in
  let '(behaviorOpts, behaviorTimeout, behaviorsLogDebug) :=
    composeBehaviorOpts behaviors (behaviorTimeout argv) logging
                        (behaviorsLogDebug argv) in
  newContext <- resolveNewContext (newContext argv) (workers argv) ;;
  emulateDevice <- resolveDevice (mobileDevice argv) (emulateDevice argv) ;;
  seeds <- mergeSeedFile (seedFile argv) (seeds argv) ;;
  netIdleWait <- resolveNetIdleWait (netIdleWait argv) (scopeType argv) ;;
  scopeType <- resolveScopeType (include argv) (scopeType argv) ;;
  let scopeOpts :=
    [("scopeType", opt_str_val scopeType);
     ("sitemap", sitemap argv);
     ("include", strOrArr_val (include argv));
     ("exclude", strOrArr_val (exclude argv));
     ("depth", JNum (depth argv));
     ("extraHops", JNum (extraHops argv))] in
  scopedSeeds <- buildScopedSeeds scopeOpts (seeds_iter seeds) [] ;;
  let statsFilename :=
    if opt_truthy (statsFilename argv)
    then option_map (path_resolve env (cwd argv)) (statsFilename argv)
    else statsFilename argv in
  ret {| collection := collection;
         crawlId := crawlId argv;
         timeout := timeout;
         waitUntil := Arr waitUntil;
         screenshot := screenshot;
         logging := Arr logging;
         behaviors := Arr behaviors;
         behaviorTimeout := behaviorTimeout;
         behaviorsLogDebug := behaviorsLogDebug;
         behaviorOpts := Some (stringify (JObj behaviorOpts));
         newContext := newContext;
         workers := workers argv;
         mobileDevice := mobileDevice argv;
         emulateDevice := emulateDevice;
         seedFile := seedFile argv;
         seeds := seeds;
         netIdleWait := netIdleWait;
         scopeType := scopeType;
         include := include argv;
         exclude := exclude argv;
         sitemap := sitemap argv;
         depth := depth argv;
         extraHops := extraHops argv;
         scopedSeeds := scopedSeeds;
         statsFilename := statsFilename;
         cwd := cwd argv |}.

(** Lines 349-355, then the rest.  The result is the rewritten [argv]. *)
Definition validateArgs (argv : Argv) : R Argv :=
  let collection :=
    Storage.interpolateFilename (host env) (collection argv) (crawlId argv) in
  if search_anchored collection_rx collection =? -1 then
    throw (Error (invalid_collection collection))
  else afterCollection argv collection.

End Resolver.

End ArgParser.


(* ====================================================================== *)
(** ** Sample inputs and the expressions the specification names *)

Import JS Rx Json Eff Storage ArgParser.
Open Scope js_scope.
Open Scope Z_scope.

Module Sample.

Definition host0 : Host :=
  {| now_iso := "2023-04-05T06:07:08.123Z";
     hostname := "crawler-host-0123456789" |}.

Definition seedText : jstr :=
  "http://a/" ++ nl ++ nl ++ "http://b/" ++ nl.

(** Collaborators for the examples: one seed file, no devices, a seed
    builder that keeps the merged options. *)
Definition env0 : Collaborators unit obj :=
  {| host := host0;
     readFileSync := fun p => if jstr_eqb p "/seeds.txt" then Some seedText else None;
     devices := fun _ => None;
     newScopedSeed := fun o => Ok o;
     screenshotTypes := [("view", JNull); ("thumbnail", JNull); ("fullPage", JNull)];
     BEHAVIOR_LOG_FUNC := JStr "__bx_log";
     path_resolve := fun a b => a ++ "/" ++ b |}.

(** The documented defaults, with one seed. *)
Definition defaults : Argv unit obj :=
  {| collection := "crawl-@ts"; crawlId := "c1"; timeout := 90;
     waitUntil := Str "load"; screenshot := Str ""; logging := Str "stats";
     behaviors := Str "autoplay,autofetch,autoscroll,siteSpecific";
     behaviorTimeout := 90; behaviorsLogDebug := None; behaviorOpts := None;
     newContext := NCNull; workers := 1; mobileDevice := None;
     emulateDevice := None; seedFile := None;
     seeds := SeedsArr [SeedStr "http://z/"]; netIdleWait := -1;
     scopeType := None; include := None; exclude := None;
     sitemap := JUndefined; depth := -1; extraHops := 0; scopedSeeds := [];
     statsFilename := None; cwd := "/crawls" |}.

Definition with_scope (a : Argv unit obj) (scopeType : option jstr)
  (include : option strOrArr) : Argv unit obj :=
  {| collection := collection a; crawlId := crawlId a; timeout := timeout a;
     waitUntil := waitUntil a; screenshot := screenshot a; logging := logging a;
     behaviors := behaviors a; behaviorTimeout := behaviorTimeout a;
     behaviorsLogDebug := behaviorsLogDebug a; behaviorOpts := behaviorOpts a;
     newContext := newContext a; workers := workers a;
     mobileDevice := mobileDevice a; emulateDevice := emulateDevice a;
     seedFile := seedFile a; seeds := seeds a; netIdleWait := netIdleWait a;
     scopeType := scopeType; include := include; exclude := exclude a;
     sitemap := sitemap a; depth := depth a; extraHops := extraHops a;
     scopedSeeds := scopedSeeds a; statsFilename := statsFilename a;
     cwd := cwd a |}.

Definition with_logging (a : Argv unit obj) (logging : jstr) : Argv unit obj :=
  {| collection := collection a; crawlId := crawlId a; timeout := timeout a;
     waitUntil := waitUntil a; screenshot := screenshot a; logging := Str logging;
     behaviors := behaviors a; behaviorTimeout := behaviorTimeout a;
     behaviorsLogDebug := behaviorsLogDebug a; behaviorOpts := behaviorOpts a;
     newContext := newContext a; workers := workers a;
     mobileDevice := mobileDevice a; emulateDevice := emulateDevice a;
     seedFile := seedFile a; seeds := seeds a; netIdleWait := netIdleWait a;
     scopeType := scopeType a; include := include a; exclude := exclude a;
     sitemap := sitemap a; depth := depth a; extraHops := extraHops a;
     scopedSeeds := scopedSeeds a; statsFilename := statsFilename a;
     cwd := cwd a |}.

Definition with_seedFile (a : Argv unit obj) (file : jstr) (seeds : seedsVal)
  : Argv unit obj :=
  {| collection := collection a; crawlId := crawlId a; timeout := timeout a;
     waitUntil := waitUntil a; screenshot := screenshot a; logging := logging a;
     behaviors := behaviors a; behaviorTimeout := behaviorTimeout a;
     behaviorsLogDebug := behaviorsLogDebug a; behaviorOpts := behaviorOpts a;
     newContext := newContext a; workers := workers a;
     mobileDevice := mobileDevice a; emulateDevice := emulateDevice a;
     seedFile := Some file; seeds := seeds; netIdleWait := netIdleWait a;
     scopeType := scopeType a; include := include a; exclude := exclude a;
     sitemap := sitemap a; depth := depth a; extraHops := extraHops a;
     scopedSeeds := scopedSeeds a; statsFilename := statsFilename a;
     cwd := cwd a |}.

Definition with_collection (a : Argv unit obj) (name : jstr) : Argv unit obj :=
  {| collection := name; crawlId := crawlId a; timeout := timeout a;
     waitUntil := waitUntil a; screenshot := screenshot a; logging := logging a;
     behaviors := behaviors a; behaviorTimeout := behaviorTimeout a;
     behaviorsLogDebug := behaviorsLogDebug a; behaviorOpts := behaviorOpts a;
     newContext := newContext a; workers := workers a;
     mobileDevice := mobileDevice a; emulateDevice := emulateDevice a;
     seedFile := seedFile a; seeds := seeds a; netIdleWait := netIdleWait a;
     scopeType := scopeType a; include := include a; exclude := exclude a;
     sitemap := sitemap a; depth := depth a; extraHops := extraHops a;
     scopedSeeds := scopedSeeds a; statsFilename := statsFilename a;
     cwd := cwd a |}.

(** One run of the resolver on the sample collaborators, its result and
    its console output. *)
Definition resolve (a : Argv unit obj) := validateArgs env0 a [].

Definition resolved (a : Argv unit obj) : Argv unit obj :=
  match fst (resolve a) with
  | Ok r => r
  | Throw _ => a
  end.

Definition printed (a : Argv unit obj) : list console := snd (resolve a).

Definition abc : filedata := map byte_of_ascii "abc".

Definition world0 : world :=
  {| files := fun p => if jstr_eqb p "/crawls/a.wacz" then Some abc else None;
     store_up := fun _ _ => true;
     http_up := fun _ => true;
     redis_up := fun _ => true;
     objects := fun _ _ => None;
     connections := [];
     lists := fun _ _ => [];
     trace := [] |}.

(** The environment of a run with a store and a webhook, and no
    [STORE_USER]. *)
Definition process_env0 (webhook : option jstr) : ProcessEnv :=
  {| STORE_ENDPOINT_URL := Some "http://s3.local/bucket/";
     STORE_PATH := Some "prefix/";
     STORE_ACCESS_KEY := Some "key";
     STORE_SECRET_KEY := Some "secret";
     CRAWL_ID := Some "c1";
     WEBHOOK_URL := webhook;
     STORE_USER := None |}.

(** The URL parser on the one endpoint of the examples. *)
Definition new_URL0 (s : jstr) : option URL :=
  if jstr_eqb s "http://s3.local/bucket/prefix/"
  then Some {| href := s; pathname := "/bucket/prefix/" |}
  else None.

(** A store client without a user id, as [initStorage] builds it when
    [STORE_USER] is not set. *)
Definition sync0 (webhook : option jstr) : S3StorageSync :=
  {| fullPrefix := "http://s3.local/bucket/prefix/";
     bucketName := "bucket";
     objectPrefix := "prefix/";
     userId := None;
     Storage.crawlId := Some "c1";
     webhookUrl := webhook |}.

(** Collaborators with one device in the table. *)
Definition env1 : Collaborators unit obj :=
  {| host := host0;
     readFileSync := fun p => if jstr_eqb p "/seeds.txt" then Some seedText else None;
     devices := fun name => if jstr_eqb name "iPhone X" then Some tt else None;
     newScopedSeed := fun o => Ok o;
     screenshotTypes := [("view", JNull); ("thumbnail", JNull); ("fullPage", JNull)];
     BEHAVIOR_LOG_FUNC := JStr "__bx_log";
     path_resolve := fun a b => a ++ "/" ++ b |}.

(** The defaults with some options set. *)
Definition bag (waitUntil screenshot behaviors : strOrArr) (behaviorTimeout workers : Z)
  (mobileDevice statsFilename : option jstr) (seeds : seedsVal)
  : Argv unit obj :=
  {| collection := "crawl-@ts"; crawlId := "c1"; timeout := 90;
     waitUntil := waitUntil; screenshot := screenshot; logging := Str "stats";
     behaviors := behaviors;
     behaviorTimeout := behaviorTimeout; behaviorsLogDebug := None;
     behaviorOpts := None;
     newContext := NCStr "old"; workers := workers; mobileDevice := mobileDevice;
     emulateDevice := None; seedFile := None;
     seeds := seeds; netIdleWait := -1;
     scopeType := Some "host"; include := Some (Str "foo"); exclude := None;
     sitemap := JUndefined; depth := -1; extraHops := 0; scopedSeeds := [];
     statsFilename := statsFilename; cwd := "/crawls" |}.

(** A run with screenshots, four workers, a device and two seeds, the
    second an object with a scope type of its own. *)
Definition busy : Argv unit obj :=
  bag (Arr ["load"; "networkidle0"]) (Str "view,movie,constructor")
      (Str "autoscroll,log") 30 4 (Some "iPhone X") (Some "stats.json")
      (SeedsArr [SeedStr "http://z/";
                 SeedObj [("url", JStr "http://y/"); ("scopeType", JStr "page")]]).

Definition resolve1 (a : Argv unit obj) := validateArgs env1 a [].

Definition resolved1 (a : Argv unit obj) : Argv unit obj :=
  match fst (resolve1 a) with
  | Ok r => r
  | Throw _ => a
  end.

Definition printed1 (a : Argv unit obj) : list console := snd (resolve1 a).

(** The same client with a user id. *)
Definition sync1 (webhook : option jstr) : S3StorageSync :=
  {| fullPrefix := "http://s3.local/bucket/prefix/";
     bucketName := "bucket";
     objectPrefix := "prefix/";
     userId := Some "u1";
     Storage.crawlId := Some "c1";
     webhookUrl := webhook |}.

Definition resource0 : Resource :=
  {| path := "a.wacz";
     hash := "ba7816bf8f01cfea414140de5dae2223b00361a396177a9cb410ff61f20015ad";
     bytes := 3 |}.

End Sample.

(* ====================================================================== *)
(** ** Vocabulary of the statements *)

(** Console output only grows. *)
Definition extends (out out' : list console) : Prop :=
  exists more, out' = out ++ more.

(** The name pattern as the specification writes it:
    [^[A-Za-z0-9_][A-Za-z0-9_-]*$]. *)
Definition name_head : cc := [Range "A" "Z"; Range "a" "z"; Range "0" "9"; Ch "_"].
Definition name_tail : cc :=
  [Range "A" "Z"; Range "a" "z"; Range "0" "9"; Ch "_"; Ch "-"].
Definition spec_name_rx : regex := Seq (Class name_head) (Star (Class name_tail)).

(** An include pattern that is present and non-empty: a string, or an
    array with at least one element. *)
Definition include_present (include : option strOrArr) : Prop :=
  match include with
  | Some (Str s) => s <> []
  | Some (Arr a) => a <> []
  | None => False
  end.

(** The seeds given as flags, a scalar promoted to a one-element list. *)
Definition flag_seeds (seeds : seedsVal) : list seed :=
  match seeds with
  | SeedsStr s => [SeedStr s]
  | SeedsArr l => l
  end.

Definition nonempty (line : jstr) : bool := negb (length line =? 0)%nat.

(** The JSON text of a property whose value may be undefined: nothing is
    written for an undefined one. *)
Definition json_field (key : jstr) (value : option jstr) : list jstr :=
  match value with
  | Some v => [quote key ++ ":" ++ quote v]
  | None => []
  end.

(** The console lines [uploadFile] prints before it uploads. *)
Definition upload_banner (this : S3StorageSync) (target : jstr) : list event :=
  [ConsoleLog ("Bucket: " ++ bucketName this);
   ConsoleLog ("Crawl Id: " ++ show (Storage.crawlId this));
   ConsoleLog ("Prefix: " ++ objectPrefix this);
   ConsoleLog ("Target Filename: " ++ target)].

(** The world once [e] has been recorded. *)
Definition after (e : event) (w : world) : world := snd (emit e w).

(** The world once the object store holds [data] under [bucket] and [key]. *)
Definition stored (bucket key : jstr) (data : filedata) (w : world) : world :=
  {| files := files w; store_up := store_up w; http_up := http_up w;
     redis_up := redis_up w;
     objects := fun b k => if jstr_eqb b bucket && jstr_eqb k key
                           then Some data else objects w b k;
     connections := connections w; lists := lists w;
     trace := trace w |}.

(** The world once a connection to [url] is in the pool. *)
Definition connected (url : jstr) (w : world) : world :=
  if includes (connections w) url then w
  else {| files := files w; store_up := store_up w; http_up := http_up w;
          redis_up := redis_up w; objects := objects w;
          connections := connections w ++ [url]; lists := lists w;
          trace := trace w |}.

(** The world once [value] is at the tail of list [key] on [conn]. *)
Definition pushed (conn key value : jstr) (w : world) : world :=
  {| files := files w; store_up := store_up w; http_up := http_up w;
     redis_up := redis_up w; objects := objects w;
     connections := connections w;
     lists := fun c k => if jstr_eqb c conn && jstr_eqb k key
                         then lists w c k ++ [value] else lists w c k;
     trace := trace w |}.

(** A connection to [url] can be had: it is in the pool or the server
    answers. *)
Definition redis_reachable (w : world) (url : jstr) : Prop :=
  includes (connections w) url = true \/ redis_up w url = true.

(** The JSON text of the notification, field by field. *)
Definition notification_text (this : S3StorageSync) (target : jstr)
  (resource : Resource) (completed : bool) : jstr :=
  "{" ++ join ","
           (json_field "id" (Storage.crawlId this)
            ++ json_field "user" (userId this)
            ++ [quote "filename" ++ ":" ++ quote (fullPrefix this ++ target);
                quote "hash" ++ ":" ++ quote (hash resource);
                quote "size" ++ ":" ++ Z_to_jstr (bytes resource);
                quote "completed" ++ ":" ++ (if completed then "true" else "false")])
      ++ "}".

(** The calls that deliver a notification. *)
Definition is_dispatch (e : event) : bool :=
  match e with
  | Fetch _ _ _ | InitRedis _ | RPush _ _ _ => true
  | _ => false
  end.

(** The tokens of a [waitUntil] option. *)
Definition wait_tokens (v : strOrArr) : list jstr :=
  match v with
  | Str s => split "," s
  | Arr a => a
  end.

Definition waitUntil_error : jstr :=
  "Invalid waitUntil option, must be one of: load,domcontentloaded,networkidle0,networkidle2".

(** The console line for a screenshot kind that is not known. *)
Definition not_found_line (element : jstr) : console :=
  log (element ++ " not found in [object Object]").

(** The console lines of lines 405-415. *)
Definition context_lines (newContext : newContextVal) (workers : Z) : list console :=
  (match newContext with
   | NCStr (_ :: _) | ReuseWindowConcurrency | CONCURRENCY_PAGE =>
       [log "Note: The newContext argument is deprecated in 0.8.0. Values passed to this option will be ignored"]
   | _ => []
   end)
  ++ [if 1 <? workers
      then log "Window context being used to support >1 workers"
      else log "Page context being used with 1 worker"].

(** The list of seeds once the seed file, read as [text], is merged in. *)
Definition seeds_with_file (seeds : seedsVal) (text : jstr) : list seed :=
  flag_seeds seeds ++ map SeedStr (filter nonempty (split "010" text)).

(** The options object of one seed. *)
Definition seed_options (s : seed) : obj :=
  match s with
  | SeedStr url => [("url", JStr url)]
  | SeedObj o => o
  end.

(** The shared scope options of lines 456-463, for a resolved scope type. *)
Definition scope_options {Device ScopedSeed : Type}
  (argv : Argv Device ScopedSeed) (scopeType : option jstr) : obj :=
  [("scopeType", opt_str_val scopeType);
   ("sitemap", sitemap argv);
   ("include", strOrArr_val (include argv));
   ("exclude", strOrArr_val (exclude argv));
   ("depth", JNum (depth argv));
   ("extraHops", JNum (extraHops argv))].

(** An include pattern overrides the requested scope type. *)
Definition overrides (include : option strOrArr) (scopeType : option jstr) : bool :=
  include_given include && opt_truthy scopeType && negb (scope_is scopeType "custom").

(** A character of an ISO-8601 timestamp as [toISOString] prints it. *)
Definition iso_char (c : ascii) : bool :=
  is_digit c || in_class ts_strip c.

(** The world once [dest] holds [data]. *)
Definition saved (dest : jstr) (data : filedata) (w : world) : world :=
  {| files := fun p => if jstr_eqb p dest then Some data else files w p;
     store_up := store_up w; http_up := http_up w;
     redis_up := redis_up w; objects := objects w;
     connections := connections w; lists := lists w;
     trace := trace w |}.

(** The world once [uploadFile] has uploaded, hashed and measured [src]. *)
Definition upload_world (this : S3StorageSync) (src target : jstr)
  (data : filedata) (w : world) : world :=
  let bucket := bucketName this in
  let key := objectPrefix this ++ target in
  after (FsStat src)
    (after (ReadStream src)
       (stored bucket key data
          (after (FPutObject bucket key src)
             (fold_left (fun w e => after e w) (upload_banner this target) w)))).

(** The world once [uploadFile] has given up at the upload call. *)
Definition failed_upload_world (this : S3StorageSync) (src target : jstr)
  (w : world) : world :=
  after (FPutObject (bucketName this) (objectPrefix this ++ target) src)
    (fold_left (fun w e => after e w) (upload_banner this target) w).

(** The resource [uploadFile] returns for a file holding [data]. *)
Definition resource_of (target : jstr) (data : filedata) : Resource :=
  {| path := target;
     hash := hex_of_bytes (Sha256.digest data);
     bytes := Z.of_nat (length data) |}.

(** A screenshot kind the filter keeps. *)
Definition known_kind {Device ScopedSeed : Type}
  (env : Collaborators Device ScopedSeed) (element : jstr) : bool :=
  in_op element (screenshotTypes env).

(** The console lines of the screenshot filter, one per dropped kind. *)
Definition screenshot_lines {Device ScopedSeed : Type}
  (env : Collaborators Device ScopedSeed) (v : strOrArr) : list console :=
  match v with
  | Str text =>
      if truthy text
      then map not_found_line
               (filter (fun e => negb (known_kind env e)) (split "," text))
      else []
  | Arr _ => []
  end.

Definition resolved_idle (netIdleWait : Z) (scopeType : option jstr) : Z :=
  if netIdleWait =? -1
  then (if scope_is scopeType "page" || scope_is scopeType "page-spa"
        then 15 else 2)
  else netIdleWait.

Definition idle_lines (netIdleWait : Z) (scopeType : option jstr) : list console :=
  if netIdleWait =? -1
  then [log ("Set netIdleWait to "
             ++ Z_to_jstr (resolved_idle netIdleWait scopeType) ++ " seconds")]
  else [].

Definition scope_lines (include : option strOrArr) (scopeType : option jstr)
  : list console :=
  if overrides include scopeType then [warn scope_warning] else [].

Definition resolved_scope (include : option strOrArr) (scopeType : option jstr)
  : option jstr :=
  if overrides include scopeType then Some "custom" else scopeType.

(** Everything a successful resolution prints, in order. *)
Definition transcript {Device ScopedSeed : Type}
  (env : Collaborators Device ScopedSeed) (argv : Argv Device ScopedSeed)
  : list console :=
  screenshot_lines env (screenshot argv)
  ++ context_lines (newContext argv) (workers argv)
  ++ idle_lines (netIdleWait argv) (scopeType argv)
  ++ scope_lines (include argv) (scopeType argv).

(** The seeds after the seed file, if one is given and readable, is
    merged in. *)
Definition resolved_seeds {Device ScopedSeed : Type}
  (env : Collaborators Device ScopedSeed) (argv : Argv Device ScopedSeed)
  : seedsVal :=
  if opt_truthy (seedFile argv) then
    match readFileSync env (match seedFile argv with Some f => f | None => [] end) with
    | Some text => SeedsArr (seeds_with_file (seeds argv) text)
    | None => seeds argv
    end
  else seeds argv.

(** The options object handed to the seed builder for one seed. *)
Definition merged_options {Device ScopedSeed : Type}
  (argv : Argv Device ScopedSeed) (s : seed) : obj :=
  spread (scope_options argv (resolved_scope (include argv) (scopeType argv)))
         (seed_options s).


(** [t] occurs in [s] at position [i]. *)
Definition occurs_at (t s : jstr) (i : nat) : Prop :=
  firstn (length t) (skipn i s) = t.

Definition occurs (t s : jstr) : Prop := exists i, occurs_at t s i.


(** The tokens of [interpolateFilename], in the order it replaces them. *)
Definition tokens : list jstr := ["@ts"; "@hostname"; "@hostsuffix"; "@id"].

(** A token is an at-sign followed by characters that are not one. *)
Definition token (t : jstr) : Prop :=
  exists body, t = "@"%char :: body /\ ~ In "@"%char body.

(** Text without an at-sign or a dollar sign, as every timestamp is. *)
Definition plain (s : jstr) : Prop :=
  ~ In "@"%char s /\ ~ In "$"%char s.


(* ====================================================================== *)
(** ** Sequencing lemmas *)

Section Sequencing.
Context {S A B : Type}.

Lemma bind_ok (c : M S A) (k : A -> M S B) s b s' :
  bind c k s = (Ok b, s') ->
  exists a s1, c s = (Ok a, s1) /\ k a s1 = (Ok b, s').
Proof.
  unfold bind. destruct (c s) as [[a|e] s1]; intros H.
  - exists a, s1. split; [reflexivity | exact H].
  - discriminate H.
Qed.

Lemma bind_step (c : M S A) (k : A -> M S B) s a s1 :
  c s = (Ok a, s1) -> bind c k s = k a s1.
Proof. unfold bind. intros ->. reflexivity. Qed.

Lemma bind_throw (c : M S A) (k : A -> M S B) s e s1 :
  c s = (Throw e, s1) -> bind c k s = (Throw e, s1).
Proof. unfold bind. intros ->. reflexivity. Qed.

End Sequencing.

(** Run the first command of a sequence with a known result. *)
Tactic Notation "step" "by" tactic(t) :=
  erewrite bind_step; [| solve [t]].

(* ====================================================================== *)
(** ** Matching the collection-name pattern *)

Lemma matches_any_nil (s : jstr) : matches_any [] s = false.
Proof. induction s; simpl; auto. Qed.

Lemma star_class_matches (cl : cc) (s : jstr) :
  matches_any [Seq Eps (Star (Class cl))] s = forallb (in_class cl) s.
Proof.
  induction s as [|c s IH]; simpl; [reflexivity|].
  destruct (in_class cl c); simpl.
  - exact IH.
  - apply matches_any_nil.
Qed.

Lemma head_tail_matches (hd tl : cc) (s : jstr) :
  fullmatch (Seq (Class hd) (Star (Class tl))) s
  = match s with
    | [] => false
    | c :: r => in_class hd c && forallb (in_class tl) r
    end.
Proof.
  unfold fullmatch. destruct s as [|c r]; simpl; [reflexivity|].
  destruct (in_class hd c); simpl.
  - apply star_class_matches.
  - apply matches_any_nil.
Qed.

Lemma word_is_name_head (c : ascii) : in_class word c = in_class name_head c.
Proof. destruct c as [[] [] [] [] [] [] [] []]; reflexivity. Qed.

Lemma word_dash_is_name_tail (c : ascii) :
  in_class (word ++ [Ch "-"]) c = in_class name_tail c.
Proof. destruct c as [[] [] [] [] [] [] [] []]; reflexivity. Qed.

Lemma collection_rx_is_spec_rx (s : jstr) :
  fullmatch collection_rx s = fullmatch spec_name_rx s.
Proof.
  unfold collection_rx, spec_name_rx. rewrite !head_tail_matches.
  destruct s as [|c r]; [reflexivity|].
  rewrite word_is_name_head. f_equal.
  induction r as [|x r IH]; cbn [forallb]; [reflexivity|].
  now rewrite word_dash_is_name_tail, IH.
Qed.

(* ====================================================================== *)
(** ** Property lists *)

Lemma jstr_eqb_refl (k : jstr) : jstr_eqb k k = true.
Proof. unfold jstr_eqb. destruct (list_eq_dec ascii_dec k k); congruence. Qed.

Lemma overwrite_get k v (o : obj) :
  has_key k o = true ->
  has_key k (overwrite k v o) = true /\ get k (overwrite k v o) = v.
Proof.
  induction o as [|[k' v'] r IH]; simpl; [discriminate|].
  destruct (jstr_eqb k k') eqn:E; simpl; rewrite E; simpl.
  - auto.
  - exact IH.
Qed.

Lemma insert_index_get n k v (o : obj) :
  has_key k o = false ->
  has_key k (insert_index n k v o) = true /\ get k (insert_index n k v o) = v.
Proof.
  induction o as [|[k' v'] r IH]; simpl.
  - rewrite jstr_eqb_refl. auto.
  - destruct (jstr_eqb k k') eqn:E; simpl; [discriminate|]. intros Hr.
    destruct (array_index k') as [m|]; [destruct (n <? m)%N|]; simpl;
      rewrite ?jstr_eqb_refl, ?E; simpl; auto.
Qed.

Lemma append_get k v (o : obj) :
  has_key k o = false ->
  has_key k (o ++ [(k, v)]) = true /\ get k (o ++ [(k, v)]) = v.
Proof.
  induction o as [|[k' v'] r IH]; simpl.
  - rewrite jstr_eqb_refl. auto.
  - destruct (jstr_eqb k k') eqn:E; simpl; [discriminate | exact IH].
Qed.

Lemma define_get k v (o : obj) :
  has_key k (define k v o) = true /\ get k (define k v o) = v.
Proof.
  unfold define. destruct (has_key k o) eqn:E.
  - now apply overwrite_get.
  - destruct (array_index k); [now apply insert_index_get | now apply append_get].
Qed.

(* ====================================================================== *)
(** ** The resolver, step by step *)

Section ResolverFacts.

Variables Device ScopedSeed : Type.
Variable env : Collaborators Device ScopedSeed.

Lemma extends_refl out : extends out out.
Proof. exists []. now rewrite app_nil_r. Qed.

Lemma extends_trans a b c : extends a b -> extends b c -> extends a c.
Proof.
  intros [m1 ->] [m2 ->]. exists (m1 ++ m2). now rewrite app_assoc.
Qed.

Lemma say_run c out : say c out = (Ok tt, out ++ [c]).
Proof. reflexivity. Qed.

Lemma buildScopedSeeds_silent scopeOpts l : forall acc out r out',
  buildScopedSeeds env scopeOpts l acc out = (r, out') -> out' = out.
Proof.
  induction l as [|x l IH]; intros acc out r out' H; simpl in H.
  - inversion H; reflexivity.
  - unfold bind, lift in H.
    destruct (newScopedSeed env _) as [sc|e].
    + eapply IH; exact H.
    + inversion H; reflexivity.
Qed.

Lemma fold_push_seeds (lines : list jstr) : forall acc,
  fold_left (fun seeds seed => if truthy seed then seeds ++ [SeedStr seed] else seeds)
            lines acc
  = acc ++ map SeedStr (filter truthy lines).
Proof.
  induction lines as [|x lines IH]; intros acc; simpl.
  - now rewrite app_nil_r.
  - rewrite IH. destruct (truthy x); simpl.
    + now rewrite <- app_assoc.
    + reflexivity.
Qed.

Lemma filterScreenshots_extends passed : forall acc out r out',
  filterScreenshots env passed acc out = (r, out') -> extends out out'.
Proof.
  induction passed as [|x passed IH]; intros acc out r out' H; simpl in H.
  - inversion H; apply extends_refl.
  - destruct (in_op x _).
    + eapply IH; exact H.
    + unfold bind in H. rewrite say_run in H.
      apply IH in H. eapply extends_trans; [|exact H].
      eexists; reflexivity.
Qed.

Lemma resolveScreenshot_extends v out r out' :
  resolveScreenshot env v out = (r, out') -> extends out out'.
Proof.
  unfold resolveScreenshot. destruct v as [s|a].
  - destruct (truthy s).
    + unfold bind. destruct (filterScreenshots _ _ _ _) as [[k|e] o] eqn:E;
        intros H; inversion H; subst; eapply filterScreenshots_extends; exact E.
    + intros H; inversion H; apply extends_refl.
  - intros H; inversion H; apply extends_refl.
Qed.

Lemma resolveWaitUntil_silent v out r out' :
  resolveWaitUntil v out = (r, out') -> out' = out.
Proof.
  unfold resolveWaitUntil. destruct (forallb _ _); intros H; inversion H; reflexivity.
Qed.

Lemma resolveLogging_silent v out r out' :
  resolveLogging v out = (r, out') -> out' = out.
Proof. destruct v; intros H; inversion H; reflexivity. Qed.

Lemma resolveNewContext_extends v workers out r out' :
  resolveNewContext v workers out = (r, out') -> extends out out'.
Proof.
  unfold resolveNewContext, when, bind.
  destruct (match v with NCStr s => truthy s | NCNull => false | _ => true end);
    destruct (1 <? workers); simpl; intros H; inversion H; subst;
    repeat rewrite <- app_assoc; eexists; reflexivity.
Qed.

Lemma resolveDevice_silent m old out r out' :
  resolveDevice env m old out = (r, out') -> out' = out.
Proof.
  unfold resolveDevice. destruct m as [name|]; [destruct (truthy name);
    [destruct (devices env name)|]|]; intros H; inversion H; reflexivity.
Qed.

Lemma mergeSeedFile_silent f sd out r out' :
  mergeSeedFile env f sd out = (r, out') -> out' = out.
Proof.
  unfold mergeSeedFile. destruct (opt_truthy f); [destruct (readFileSync env _)|];
    intros H; inversion H; reflexivity.
Qed.

Lemma resolveNetIdleWait_extends n sc out r out' :
  resolveNetIdleWait n sc out = (r, out') -> extends out out'.
Proof.
  unfold resolveNetIdleWait, bind. destruct (n =? -1); simpl;
    intros H; inversion H; subst; [eexists; reflexivity | apply extends_refl].
Qed.

(** What a successful run of lines 357-479 did, step by step. *)
Lemma afterCollection_ok argv name out argv' out' :
  afterCollection env argv name out = (Ok argv', out') ->
  collection argv' = name
  /\ timeout argv' = timeout argv * 1000
  /\ (exists channels o1 o2,
        resolveLogging (logging argv) o1 = (Ok channels, o2)
        /\ logging argv' = Arr channels
        /\ let r := composeBehaviorOpts env
                      (match behaviors argv with Str s => split "," s | Arr a => a end)
                      (behaviorTimeout argv) channels (behaviorsLogDebug argv) in
           behaviorOpts argv' = Some (stringify (JObj (fst (fst r))))
           /\ behaviorTimeout argv' = snd (fst r)
           /\ behaviorsLogDebug argv' = snd r)
  /\ (exists o1 o2,
        mergeSeedFile env (seedFile argv) (seeds argv) o1 = (Ok (seeds argv'), o2))
  /\ (exists o1 o2,
        resolveNetIdleWait (netIdleWait argv) (scopeType argv) o1
        = (Ok (netIdleWait argv'), o2))
  /\ (exists o1,
        extends out o1
        /\ resolveScopeType (include argv) (scopeType argv) o1
           = (Ok (scopeType argv'), out'))
  /\ include argv' = include argv.
Proof.
  unfold afterCollection. intros H.
  apply bind_ok in H. destruct H as (wu & s1 & E1 & H).
  apply bind_ok in H. destruct H as (sh & s2 & E2 & H).
  apply bind_ok in H. destruct H as (lg & s3 & E3 & H).
  destruct (composeBehaviorOpts _ _ _ _ _) as [[bo bt] dbg] eqn:Hc.
  apply bind_ok in H. destruct H as (nc & s4 & E4 & H).
  apply bind_ok in H. destruct H as (dv & s5 & E5 & H).
  apply bind_ok in H. destruct H as (sd & s6 & E6 & H).
  apply bind_ok in H. destruct H as (ni & s7 & E7 & H).
  apply bind_ok in H. destruct H as (sc & s8 & E8 & H).
  apply bind_ok in H. destruct H as (ss & s9 & E9 & H).
  apply buildScopedSeeds_silent in E9. subst s9.
  inversion H; subst; clear H. simpl.
  assert (Hext : extends out s7).
  { apply resolveWaitUntil_silent in E1. apply resolveScreenshot_extends in E2.
    apply resolveLogging_silent in E3. apply resolveNewContext_extends in E4.
    apply resolveDevice_silent in E5. pose proof (mergeSeedFile_silent _ _ _ E6).
    apply resolveNetIdleWait_extends in E7. subst.
    eapply extends_trans; [exact E2|]. eapply extends_trans; [exact E4|]. exact E7. }
  repeat split; try reflexivity.
  - eexists _, _, _. split; [eassumption|]. split; [reflexivity|].
    rewrite Hc. simpl. repeat split; reflexivity.
  - eexists _, _. eassumption.
  - eexists _, _. eassumption.
  - eexists. split; eassumption.
Qed.

Lemma validateArgs_ok argv out argv' out' :
  validateArgs env argv out = (Ok argv', out') ->
  afterCollection env argv
    (interpolateFilename (host env) (collection argv) (crawlId argv)) out
  = (Ok argv', out').
Proof.
  unfold validateArgs.
  destruct (_ =? -1); [discriminate | auto].
Qed.

Lemma includes_In (a : list jstr) (x : jstr) :
  includes a x = true <-> In x a.
Proof.
  unfold includes. rewrite existsb_exists. split.
  - intros (y & Hy & E). unfold jstr_eqb in E.
    destruct (list_eq_dec ascii_dec x y); [subst; exact Hy | discriminate].
  - intros H. exists x. split; [exact H|]. unfold jstr_eqb.
    destruct (list_eq_dec ascii_dec x x); [reflexivity | contradiction].
Qed.

Lemma includes_not_In (a : list jstr) (x : jstr) :
  includes a x = false <-> ~ In x a.
Proof.
  rewrite <- includes_In. destruct (includes a x); split; intros H;
    try reflexivity; try discriminate; try (intros E; discriminate).
  exfalso; apply H; reflexivity.
Qed.

Lemma include_given_spec (i : option strOrArr) :
  include_given i = true <-> include_present i.
Proof.
  destruct i as [[s|a]|]; simpl.
  - destruct s; simpl; split; intros H; try discriminate; try reflexivity.
    now elim H.
  - destruct a; simpl; split; intros H; try discriminate; try reflexivity.
    now elim H.
  - split; [discriminate | contradiction].
Qed.

Lemma scope_is_spec (sc : option jstr) (name : jstr) :
  scope_is sc name = true <-> sc = Some name.
Proof.
  destruct sc as [s|]; simpl; unfold jstr_eqb.
  - destruct (list_eq_dec ascii_dec s name); split; intros H;
      try discriminate; try reflexivity; try congruence.
  - split; discriminate.
Qed.


(** C8: with [netIdleWait] left at -1 the resolved value is 15 for the
    requested scope types [page] and [page-spa] and 2 for every other one,
    unset included; any other value is kept. *)
Theorem netIdleWait_heuristic argv out argv' out' :
  validateArgs env argv out = (Ok argv', out') ->
  (netIdleWait argv = -1 ->
     ((scopeType argv = Some "page" \/ scopeType argv = Some "page-spa") ->
        netIdleWait argv' = 15)
     /\ (scopeType argv <> Some "page" -> scopeType argv <> Some "page-spa" ->
           netIdleWait argv' = 2))
  /\ (netIdleWait argv <> -1 -> netIdleWait argv' = netIdleWait argv).
Proof.
  intros H. apply validateArgs_ok, afterCollection_ok in H.
  destruct H as (_ & _ & _ & _ & (o1 & o2 & Hn) & _).
  unfold resolveNetIdleWait in Hn.
  destruct (netIdleWait argv =? -1) eqn:E.
  - apply Z.eqb_eq in E. unfold bind in Hn. simpl in Hn.
    inversion Hn as [[Hv Ho]]. clear Hn Ho.
    split; [intros _ | intros Hne; contradiction].
    split.
    + intros [Hp | Hp]; apply scope_is_spec in Hp; rewrite Hp;
        [reflexivity | rewrite orb_true_r; reflexivity].
    + intros H1 H2.
      destruct (scope_is (scopeType argv) "page") eqn:E1;
        [apply scope_is_spec in E1; contradiction|].
      destruct (scope_is (scopeType argv) "page-spa") eqn:E2;
        [apply scope_is_spec in E2; contradiction|].
      reflexivity.
  - apply Z.eqb_neq in E. inversion Hn as [[Hv Ho]].
    split; [intros E'; contradiction | intros _; reflexivity].
Qed.

(** C1, as amended: with an include pattern present and non-empty, a
    requested scope type resolves to [custom], and a warning is the last
    console line when a named type other than [custom] was overridden; a
    scope type that was not requested stays unset. *)
Theorem include_overrides_requested_scope argv out argv' out' :
  validateArgs env argv out = (Ok argv', out') ->
  include_present (include argv) ->
  match scopeType argv with
  | Some requested =>
      requested <> [] ->
      scopeType argv' = Some "custom"
      /\ (requested <> "custom" ->
          exists between, out' = out ++ between ++ [warn scope_warning])
  | None => scopeType argv' = None
  end.
Proof.
  intros H Hinc. apply validateArgs_ok, afterCollection_ok in H.
  destruct H as (_ & _ & _ & _ & _ & (o1 & Hext & Hs) & _).
  apply include_given_spec in Hinc.
  unfold resolveScopeType in Hs. rewrite Hinc in Hs.
  destruct (scopeType argv) as [requested|] eqn:Esc.
  - intros Hne. simpl in Hs.
    assert (Ht : truthy requested = true) by (destruct requested; [contradiction | reflexivity]).
    rewrite Ht in Hs. simpl in Hs.
    unfold jstr_eqb in Hs. destruct (list_eq_dec ascii_dec requested "custom") as [->|Hd];
      simpl in Hs.
    + inversion Hs; subst. split; [reflexivity | intros F; now elim F].
    + unfold bind in Hs. simpl in Hs. inversion Hs as [[Hv Ho]].
      split; [reflexivity|]. intros _.
      destruct Hext as [more ->]. exists more. now rewrite app_assoc.
  - simpl in Hs. inversion Hs; reflexivity.
Qed.

(** C9: with a seed file given, the final seeds are the flag seeds (a
    scalar promoted to a list) followed by the non-empty lines of the file
    in file order. *)
Theorem seed_file_lines_follow_flag_seeds argv out argv' out' file :
  validateArgs env argv out = (Ok argv', out') ->
  seedFile argv = Some file -> file <> [] ->
  exists text,
    readFileSync env file = Some text
    /\ seeds argv'
       = SeedsArr (flag_seeds (seeds argv)
                   ++ map SeedStr (filter nonempty (split "010" text))).
Proof.
  intros H Hf Hne. apply validateArgs_ok, afterCollection_ok in H.
  destruct H as (_ & _ & _ & (o1 & o2 & Hm) & _).
  unfold mergeSeedFile in Hm. rewrite Hf in Hm. simpl in Hm.
  assert (Ht : truthy file = true) by (destruct file; [contradiction | reflexivity]).
  rewrite Ht in Hm.
  destruct (readFileSync env file) as [text|]; [|discriminate].
  exists text. split; [reflexivity|].
  inversion Hm as [[Hv Ho]]. rewrite fold_push_seeds.
  f_equal. f_equal. f_equal. apply filter_ext.
  intros line. destruct line; reflexivity.
Qed.

(** C5, as amended: when the logging channels include [behaviors] or
    [behaviors-debug], the composed behaviour options carry the logging hook
    under [log]; resolution sets the debug flag when the channels include
    [behaviors-debug] and not [behaviors], and leaves the flag as it was
    when [behaviors] is among them. *)
Theorem behavior_log_hook_and_debug_flag argv out argv' out' :
  validateArgs env argv out = (Ok argv', out') ->
  exists channels_text,
    logging argv = Str channels_text
    /\ let channels := split "," channels_text in
       let composed :=
         fst (fst (composeBehaviorOpts env
                     (match behaviors argv with Str s => split "," s | Arr a => a end)
                     (behaviorTimeout argv) channels (behaviorsLogDebug argv))) in
       behaviorOpts argv' = Some (stringify (JObj composed))
       /\ (In "behaviors" channels \/ In "behaviors-debug" channels ->
           has_key "log" composed = true
           /\ get "log" composed = BEHAVIOR_LOG_FUNC env)
       /\ (In "behaviors-debug" channels -> ~ In "behaviors" channels ->
           behaviorsLogDebug argv' = Some true)
       /\ (In "behaviors" channels ->
           behaviorsLogDebug argv' = behaviorsLogDebug argv).
Proof.
  intros H. apply validateArgs_ok, afterCollection_ok in H.
  destruct H as (_ & _ & (channels & o1 & o2 & Hl & _ & Hb & _ & Hd) & _).
  destruct (logging argv) as [text|a]; simpl in Hl; [|discriminate].
  inversion Hl; subst channels. clear Hl.
  exists text. split; [reflexivity|]. cbv zeta.
  split; [exact Hb|]. rewrite Hd. clear Hb Hd.
  unfold composeBehaviorOpts.
  set (listed := fold_left _ _ _).
  pose proof (includes_In (split "," text) "behaviors") as I1.
  pose proof (includes_In (split "," text) "behaviors-debug") as I2.
  destruct (behaviorTimeout argv =? 0);
    destruct (includes (split "," text) "behaviors");
    destruct (includes (split "," text) "behaviors-debug");
    simpl; repeat split; intros;
    try apply define_get; try reflexivity;
    try (exfalso; intuition congruence).
  all: destruct I1 as [_ I1]; destruct I2 as [_ I2];
    exfalso; intuition discriminate.
Qed.

(** C4: the collection name is interpolated once and the result is what
    the name check sees; a name matching [^[A-Za-z0-9_][A-Za-z0-9_-]*$]
    lets resolution go on, any other one (such as [my coll]) aborts it with
    the error that quotes the name. *)
Theorem collection_name_checked_after_interpolation argv out :
  let name := interpolateFilename (host env) (collection argv) (crawlId argv) in
  (fullmatch spec_name_rx name = true ->
     validateArgs env argv out = afterCollection env argv name out)
  /\ (fullmatch spec_name_rx name = false ->
        validateArgs env argv out = (Throw (Error (invalid_collection name)), out))
  /\ (forall argv' out',
        validateArgs env argv out = (Ok argv', out') ->
        collection argv' = name /\ fullmatch spec_name_rx (collection argv') = true)
  /\ (collection argv = "my coll" ->
        validateArgs env argv out
        = (Throw (Error (invalid_collection "my coll")), out)).
Proof.
  cbv zeta. unfold validateArgs, search_anchored.
  rewrite collection_rx_is_spec_rx.
  repeat split.
  - intros ->. reflexivity.
  - intros ->. reflexivity.
  - destruct (fullmatch spec_name_rx _); simpl in H; [|discriminate].
    apply afterCollection_ok in H. tauto.
  - destruct (fullmatch spec_name_rx _) eqn:E; simpl in H; [|discriminate].
    apply afterCollection_ok in H. destruct H as (-> & _). exact E.
  - intros ->. reflexivity.
Qed.

End ResolverFacts.

(* ====================================================================== *)
(** ** Occurrences of a token under [replace] *)

Section Occurrences.
Open Scope nat_scope.

Lemma startsWith_firstn (p : jstr) : forall s,
  startsWith s p = true <-> firstn (length p) s = p.
Proof.
  induction p as [|c p IH]; intros s; simpl.
  - split; reflexivity.
  - destruct s as [|d s]; [split; discriminate|].
    rewrite andb_true_iff, Ascii.eqb_eq, IH. split.
    + intros [-> ->]. reflexivity.
    + intros H. inversion H. subst d. rewrite H2. auto.
Qed.


Lemma indexOf_finds (p : jstr) : forall s j,
  occurs_at p s j -> j <= length s ->
  exists i, indexOf s p = Some i /\ i <= j.
Proof.
  induction s as [|d s IH]; intros j Hocc Hj; simpl.
  - assert (j = 0) by (inversion Hj; reflexivity). subst.
    unfold occurs_at in Hocc. simpl in Hocc.
    apply startsWith_firstn in Hocc. rewrite Hocc. exists 0. auto.
  - destruct (startsWith (d :: s) p) eqn:E.
    + exists 0. split; [reflexivity | apply Nat.le_0_l].
    + destruct j as [|j].
      * unfold occurs_at in Hocc. simpl in Hocc.
        apply startsWith_firstn in Hocc. congruence.
      * destruct (IH j Hocc) as (i & Hi & Hle); [simpl in Hj; lia|].
        rewrite Hi. exists (S i). split; [reflexivity | lia].
Qed.

Lemma occurs_at_bound (t s : jstr) (j : nat) :
  occurs_at t s j -> t <> [] -> j + length t <= length s.
Proof.
  unfold occurs_at. intros H Hne.
  assert (L : length (firstn (length t) (skipn j s)) = length t) by now rewrite H.
  rewrite length_firstn, length_skipn in L.
  assert (0 < length t) by (destruct t; [contradiction | simpl; lia]).
  lia.
Qed.















Lemma tokens_are_tokens (t : jstr) : In t tokens -> token t.
Proof.
  intros H. simpl in H.
  destruct H as [<-|[<-|[<-|[<-|[]]]]]; eexists; (split; [reflexivity|]);
    simpl; intuition discriminate.
Qed.


Lemma GetSubstitution_other (m b a : jstr) (c : ascii) (r : jstr) :
  c <> "$"%char ->
  GetSubstitution m b a (c :: r) = c :: GetSubstitution m b a r.
Proof.
  intros H. apply Ascii.eqb_neq in H.
  destruct r as [|d r']; [reflexivity|].
  simpl. rewrite H. reflexivity.
Qed.

Lemma GetSubstitution_plain (m b a : jstr) : forall tpl,
  ~ In "$"%char tpl -> GetSubstitution m b a tpl = tpl.
Proof.
  induction tpl as [|c r IH]; intros H; [reflexivity|].
  rewrite GetSubstitution_other.
  - f_equal. apply IH. intros F. apply H. now right.
  - intros ->. apply H. now left.
Qed.

Lemma indexOf_after_plain_prefix (t rest : jstr) : forall a,
  token t -> ~ In "@"%char a ->
  indexOf (a ++ rest) t = option_map (Nat.add (length a)) (indexOf rest t).
Proof.
  intros a Ht. induction a as [|x a IH]; intros Ha.
  - simpl. destruct (indexOf rest t); reflexivity.
  - destruct Ht as (body & -> & Hb).
    cbn [app indexOf startsWith].
    destruct (Ascii.eqb "@" x) eqn:E.
    + apply Ascii.eqb_eq in E. subst. elim Ha. now left.
    + cbn [andb]. rewrite IH.
      * destruct (indexOf rest _); reflexivity.
      * intros F. apply Ha. now right.
Qed.



End Occurrences.

(* ====================================================================== *)
(** ** The artifact sync client *)

Section StorageFacts.

(** What [initStorage] passes on: the user id is the [STORE_USER]
    variable, undefined when that is not set. *)
Lemma initStorage_identity new_URL without_credentials env os_hostname w this w' :
  initStorage new_URL without_credentials env os_hostname w = (Ok (Some this), w') ->
  userId this = STORE_USER env
  /\ webhookUrl this = WEBHOOK_URL env
  /\ Storage.crawlId this = Some (or_else (CRAWL_ID env) os_hostname).
Proof.
  unfold initStorage, construct.
  destruct (negb _); [intros H; inversion H|].
  unfold console_log. unfold bind, emit, modify, lift, ret.
  destruct (new_URL _) as [url|]; intros H; inversion H; subst. auto.
Qed.

Example initStorage_sample (webhook : option jstr) :
  fst (initStorage Sample.new_URL0 (fun u => u) (Sample.process_env0 webhook)
                   "crawler-host-0123456789" Sample.world0)
  = Ok (Some (Sample.sync0 webhook)).
Proof. reflexivity. Qed.

Example sha256_of_nothing :
  hex_of_bytes (Sha256.digest [])
  = "e3b0c44298fc1c149afbf4c8996fb92427ae41e4649b934ca495991b7852b855".
Proof. vm_compute. reflexivity. Qed.

Example sha256_of_abc :
  hex_of_bytes (Sha256.digest Sample.abc)
  = "ba7816bf8f01cfea414140de5dae2223b00361a396177a9cb410ff61f20015ad".
Proof. vm_compute. reflexivity. Qed.

Example sha256_of_two_blocks :
  hex_of_bytes
    (Sha256.digest
       (map byte_of_ascii "abcdbcdecdefdefgefghfghighijhijkijkljklmklmnlmnomnopnopq"))
  = "248d6a61d20638b8e5c026930c3e6039a33ce45964ff2167f6ecedd419db06c1".
Proof. vm_compute. reflexivity. Qed.

Lemma read_chunks_concat (rest : filedata) : forall room cur,
  concat (read_chunks room cur rest) = rev cur ++ rest.
Proof.
  induction rest as [|b r IH]; intros room cur; simpl.
  - destruct cur; simpl; [reflexivity|]. now rewrite !app_nil_r.
  - destruct (room =? 0)%N; simpl; rewrite IH; simpl;
      [reflexivity | now rewrite <- app_assoc].
Qed.

Lemma update_chunks (chunks : list filedata) : forall h,
  absorbed (fold_left update chunks h) = absorbed h ++ concat chunks.
Proof.
  induction chunks as [|c chunks IH]; intros h; simpl.
  - now rewrite app_nil_r.
  - rewrite IH. simpl. now rewrite app_assoc.
Qed.

Ltac run :=
  unfold bind, lift, gets, emit, modify, ret, throw, when;
  cbn beta iota;
  cbn [files store_up http_up redis_up objects connections lists trace fst snd].

Lemma emit_run (e : event) (w : world) : emit e w = (Ok tt, after e w).
Proof. reflexivity. Qed.

Lemma fPutObject_run bucket key src data w :
  files w src = Some data -> store_up w bucket key = true ->
  fPutObject bucket key src w
  = (Ok tt, stored bucket key data (after (FPutObject bucket key src) w)).
Proof.
  intros Hf Hup. unfold fPutObject. run.
  rewrite Hf. run. rewrite Hup. reflexivity.
Qed.

(** The streamed digest is the digest of the whole file, however the
    stream cuts it into chunks. *)
Lemma checksumFile_run (file : jstr) (data : filedata) (w : world) :
  files w file = Some data ->
  checksumFile "sha256" file w
  = (Ok (hex_of_bytes (Sha256.digest data)), after (ReadStream file) w).
Proof.
  intros Hf. unfold checksumFile, createReadStream.
  change (createHash "sha256")
    with (Ok {| algorithm := "sha256"; absorbed := [] |}).
  run. rewrite Hf. run. unfold digest_hex.
  rewrite update_chunks, read_chunks_concat. reflexivity.
Qed.

Lemma getFileSize_run (file : jstr) (data : filedata) (w : world) :
  files w file = Some data ->
  getFileSize file w = (Ok (Z.of_nat (length data)), after (FsStat file) w).
Proof.
  intros Hf. unfold getFileSize. run. rewrite Hf. reflexivity.
Qed.

(** C6: [uploadFile] returns the target name, the SHA-256 of the file's
    bytes in hexadecimal and the file's size; the file is read for the
    digest in the world the finished upload left, where the object is
    already in the store; and reading it again for a digest gives the same
    hash. *)
Theorem upload_returns_digest_of_file this src target data w :
  files w src = Some data ->
  store_up w (bucketName this) (objectPrefix this ++ target) = true ->
  let digest := hex_of_bytes (Sha256.digest data) in
  let bucket := bucketName this in
  let key := objectPrefix this ++ target in
  exists uploaded w',
    uploadFile this src target w
    = (Ok {| path := target; hash := digest; bytes := Z.of_nat (length data) |}, w')
    /\ trace uploaded
       = trace w ++ upload_banner this target ++ [FPutObject bucket key src]
    /\ objects uploaded bucket key = Some data
    /\ checksumFile "sha256" src uploaded
       = (Ok digest, after (ReadStream src) uploaded)
    /\ w' = after (FsStat src) (after (ReadStream src) uploaded)
    /\ files w' = files w
    /\ exists w1 w2,
         checksumFile "sha256" src w' = (Ok digest, w1)
         /\ checksumFile "sha256" src w1 = (Ok digest, w2).
Proof.
  intros Hf Hup. cbv zeta.
  unfold uploadFile, console_log.
  step by apply emit_run.
  step by apply emit_run.
  step by apply emit_run.
  step by apply emit_run.
  step by (apply fPutObject_run; eassumption).
  step by (apply checksumFile_run; eassumption).
  step by (apply getFileSize_run; eassumption).
  eexists _, _. split; [reflexivity|].
  repeat split.
  - cbn. rewrite <- !app_assoc. reflexivity.
  - cbn. rewrite !jstr_eqb_refl. reflexivity.
  - apply checksumFile_run. exact Hf.
  - eexists _, _. split; apply checksumFile_run; exact Hf.
Qed.

Lemma redis_scheme (url : jstr) :
  startsWith url "redis://" = true ->
  truthy url = true
  /\ startsWith url "http://" = false
  /\ startsWith url "https://" = false.
Proof.
  destruct url as [|c r]; [discriminate|].
  cbn [startsWith truthy]. intros H.
  apply andb_true_iff in H. destruct H as [H _].
  apply Ascii.eqb_eq in H. subst c. auto.
Qed.

Lemma initRedis_run (url : jstr) (w : world) :
  redis_reachable w url ->
  initRedis url w = (Ok url, connected url (after (InitRedis url) w)).
Proof.
  intros Hr. unfold initRedis, connected. run.
  unfold after. cbn [emit modify snd connections].
  unfold redis_reachable in Hr.
  destruct (includes (connections w) url) eqn:E; [reflexivity|].
  destruct Hr as [Hr|Hr]; [discriminate|]. rewrite Hr. reflexivity.
Qed.

Lemma rpush_run (conn key value : jstr) (w : world) :
  rpush conn key value w
  = (Ok tt, pushed conn key value (after (RPush conn key value) w)).
Proof. reflexivity. Qed.

Lemma notification_stringify this target resource completed :
  stringify (notification this target resource completed)
  = notification_text this target resource completed.
Proof.
  unfold notification, notification_text, stringify.
  destruct (Storage.crawlId this), (userId this), completed; reflexivity.
Qed.

Lemma connected_keeps (url : jstr) (w : world) :
  lists (connected url w) = lists w /\ trace (connected url w) = trace w.
Proof. unfold connected. destruct (includes _ _); auto. Qed.

(** C2, as amended: a [redis://] webhook URL must split on [/] into
    exactly five segments; any other count raises the format error with
    nothing but the console line done; on five segments one JSON text is
    appended to the tail of the list named by the fifth, on the connection
    named by the first four.  The text carries [filename], [hash], [size]
    and [completed], and [id] and [user] when they are defined. *)
Theorem redis_webhook_dispatch this target resource completed url w :
  webhookUrl this = Some url ->
  startsWith url "redis://" = true ->
  let parts := split "/" url in
  let announced := after (ConsoleLog ("Pinging Webhook: " ++ url)) w in
  (length parts <> 5%nat ->
     notify this target resource completed w
     = (Throw (Error redis_format_error), announced))
  /\ (length parts = 5%nat ->
      let conn := join "/" (firstn 4 parts) in
      let key := nth 4 parts "" in
      let payload := notification_text this target resource completed in
      redis_reachable w conn ->
      exists w',
        notify this target resource completed w = (Ok tt, w')
        /\ lists w' conn key = lists w conn key ++ [payload]
        /\ (forall c k, c <> conn \/ k <> key -> lists w' c k = lists w c k)
        /\ trace w'
           = trace w ++ [ConsoleLog ("Pinging Webhook: " ++ url);
                         InitRedis conn; RPush conn key payload]).
Proof.
  intros Hurl Hscheme. cbv zeta.
  destruct (redis_scheme _ Hscheme) as (Ht & H1 & H2).
  unfold notify. rewrite Hurl, Ht, H1, H2, Hscheme. cbn [orb].
  unfold console_log. step by apply emit_run.
  split.
  - intros Hlen. apply Nat.eqb_neq in Hlen. rewrite Hlen. reflexivity.
  - intros Hlen Hr. rewrite Hlen. cbn [Nat.eqb negb].
    step by (apply initRedis_run; exact Hr).
    rewrite rpush_run, notification_stringify.
    eexists. split; [reflexivity|].
    set (w1 := after _ w) in *.
    set (conn := join "/" _) in *. set (key := nth 4 _ _).
    set (payload := notification_text _ _ _ _).
    repeat split.
    + cbn [pushed lists after emit modify snd].
      rewrite !jstr_eqb_refl. cbn [andb].
      now rewrite (proj1 (connected_keeps conn _)).
    + intros c k Hne. cbn [pushed lists after emit modify snd].
      rewrite (proj1 (connected_keeps conn _)).
      unfold jstr_eqb.
      destruct (list_eq_dec ascii_dec c conn), (list_eq_dec ascii_dec k key);
        cbn [andb]; try reflexivity.
      destruct Hne; contradiction.
    + cbn [pushed trace after emit modify snd].
      rewrite (proj2 (connected_keeps conn _)).
      cbn. rewrite <- !app_assoc. reflexivity.
Qed.

(** C3, as amended: a webhook URL whose scheme is none of [http://],
    [https://] and [redis://] is announced on the console and then left
    alone; the dispatch step ends without an error and without a request. *)
Theorem other_scheme_is_ignored this target resource completed url w :
  webhookUrl this = Some url ->
  url <> [] ->
  startsWith url "http://" = false ->
  startsWith url "https://" = false ->
  startsWith url "redis://" = false ->
  notify this target resource completed w
  = (Ok tt, after (ConsoleLog ("Pinging Webhook: " ++ url)) w).
Proof.
  intros Hurl Hne H1 H2 H3. unfold notify. rewrite Hurl.
  assert (Ht : truthy url = true) by (destruct url; [contradiction | reflexivity]).
  rewrite Ht, H1, H2, H3. reflexivity.
Qed.

End StorageFacts.

(* ====================================================================== *)
(** ** The statements at concrete inputs *)

Lemma indexOf_none (p s : jstr) :
  indexOf s p = None -> p <> [] -> ~ occurs p s.
Proof.
  intros Hn Hp [j Hj].
  pose proof (@occurs_at_bound _ _ _ Hj Hp) as Hb.
  destruct (@indexOf_finds p s j Hj) as (i & Hi & _); [lia | congruence].
Qed.

Lemma sample_resolves (a : Argv unit obj) :
  (match fst (Sample.resolve a) with Ok _ => true | Throw _ => false end) = true ->
  validateArgs Sample.env0 a [] = (Ok (Sample.resolved a), Sample.printed a).
Proof.
  unfold Sample.resolved, Sample.printed, Sample.resolve.
  destruct (validateArgs Sample.env0 a []) as [[r|e] o]; simpl;
    [reflexivity | discriminate].
Defined.


Lemma netIdleWait_heuristic_witness :
  netIdleWait (Sample.resolved (Sample.with_scope Sample.defaults (Some "page") None)) = 15
  /\ netIdleWait (Sample.resolved Sample.defaults) = 2.
Proof.
  split.
  - apply (@netIdleWait_heuristic _ _ Sample.env0
             (Sample.with_scope Sample.defaults (Some "page") None) []
             _ _ (sample_resolves
                    (Sample.with_scope Sample.defaults (Some "page") None) eq_refl)).
    + reflexivity.
    + left. reflexivity.
  - apply (@netIdleWait_heuristic _ _ Sample.env0 Sample.defaults []
             _ _ (sample_resolves Sample.defaults eq_refl)).
    + reflexivity.
    + discriminate.
    + discriminate.
Defined.

(** An include pattern without a requested scope type: the resolved
    option bag has no scope type, not [custom]. *)
Lemma include_without_scope_stays_unset :
  let argv := Sample.with_scope Sample.defaults None (Some (Str "foo")) in
  validateArgs Sample.env0 argv [] = (Ok (Sample.resolved argv), Sample.printed argv)
  /\ include_present (include argv)
  /\ scopeType (Sample.resolved argv) <> Some "custom".
Proof.
  cbv zeta. split; [apply sample_resolves; reflexivity|].
  split; [discriminate|]. vm_compute. discriminate.
Qed.

Lemma include_overrides_requested_scope_witness :
  let argv := Sample.with_scope Sample.defaults (Some "host") (Some (Str "foo")) in
  scopeType (Sample.resolved argv) = Some "custom"
  /\ exists between, Sample.printed argv = [] ++ between ++ [warn scope_warning].
Proof.
  cbv zeta.
  pose proof (@include_overrides_requested_scope _ _ Sample.env0
                (Sample.with_scope Sample.defaults (Some "host") (Some (Str "foo"))) []
                _ _ (sample_resolves
                       (Sample.with_scope Sample.defaults (Some "host") (Some (Str "foo")))
                       eq_refl)) as H.
  cbn [Sample.with_scope include scopeType include_present] in H.
  destruct H as [Hcustom Hwarn]; try discriminate.
  split; [exact Hcustom | apply Hwarn; discriminate].
Defined.

(** Both behaviour channels at once: the hook is there, the debug flag is
    not set. *)
Lemma both_channels_leave_debug_unset :
  let argv := Sample.with_logging Sample.defaults "behaviors,behaviors-debug" in
  validateArgs Sample.env0 argv [] = (Ok (Sample.resolved argv), Sample.printed argv)
  /\ In "behaviors-debug" (split "," "behaviors,behaviors-debug")
  /\ behaviorsLogDebug (Sample.resolved argv) <> Some true.
Proof.
  cbv zeta. split; [apply sample_resolves; reflexivity|].
  split; [simpl; tauto|]. vm_compute. discriminate.
Qed.

Lemma behavior_log_hook_and_debug_flag_witness :
  let argv := Sample.with_logging Sample.defaults "stats,behaviors-debug" in
  exists composed,
    behaviorOpts (Sample.resolved argv) = Some (stringify (JObj composed))
    /\ get "log" composed = JStr "__bx_log"
    /\ behaviorsLogDebug (Sample.resolved argv) = Some true.
Proof.
  cbv zeta.
  destruct (@behavior_log_hook_and_debug_flag _ _ Sample.env0
              (Sample.with_logging Sample.defaults "stats,behaviors-debug") []
              _ _ (sample_resolves
                     (Sample.with_logging Sample.defaults "stats,behaviors-debug")
                     eq_refl))
    as (text & Etext & Hopts & Hlog & Hdebug & _).
  injection Etext as <-.
  eexists. split; [exact Hopts|]. split.
  - apply Hlog. right. simpl. tauto.
  - apply Hdebug; simpl; intuition discriminate.
Defined.

Lemma seed_file_lines_follow_flag_seeds_witness :
  let argv := Sample.with_seedFile Sample.defaults "/seeds.txt" (SeedsStr "http://z/") in
  seeds (Sample.resolved argv)
  = SeedsArr [SeedStr "http://z/"; SeedStr "http://a/"; SeedStr "http://b/"].
Proof.
  cbv zeta.
  destruct (@seed_file_lines_follow_flag_seeds _ _ Sample.env0
              (Sample.with_seedFile Sample.defaults "/seeds.txt" (SeedsStr "http://z/")) []
              _ _ "/seeds.txt"
              (sample_resolves
                 (Sample.with_seedFile Sample.defaults "/seeds.txt" (SeedsStr "http://z/"))
                 eq_refl) eq_refl)
    as (text & Etext & Hseeds); [discriminate|].
  injection Etext as <-. rewrite Hseeds. reflexivity.
Defined.

Lemma collection_name_checked_after_interpolation_witness :
  validateArgs Sample.env0 (Sample.with_collection Sample.defaults "my coll") []
  = (Throw (Error (invalid_collection "my coll")), [])
  /\ collection (Sample.resolved Sample.defaults) = "crawl-20230405060708123".
Proof.
  split.
  - destruct (@collection_name_checked_after_interpolation _ _ Sample.env0
                (Sample.with_collection Sample.defaults "my coll") [])
      as (_ & _ & _ & H).
    apply H. reflexivity.
  - destruct (@collection_name_checked_after_interpolation _ _ Sample.env0
                Sample.defaults [])
      as (_ & _ & H & _).
    rewrite (proj1 (H _ _ (sample_resolves Sample.defaults eq_refl))).
    reflexivity.
Defined.

(** One interpolation only: [@id@id] with crawl id [x] becomes [x@id],
    which is not a valid name, although interpolating again would make it
    one. *)
Lemma interpolation_not_repeated :
  let once := interpolateFilename Sample.host0 "@id@id" "x" in
  once = "x@id"
  /\ fullmatch spec_name_rx once = false
  /\ fullmatch spec_name_rx (interpolateFilename Sample.host0 once "x") = true.
Proof. vm_compute. auto. Qed.


Lemma upload_returns_digest_of_file_witness :
  exists w',
    uploadFile (Sample.sync0 None) "/crawls/a.wacz" "a.wacz" Sample.world0
    = (Ok Sample.resource0, w').
Proof.
  destruct (@upload_returns_digest_of_file (Sample.sync0 None) "/crawls/a.wacz"
              "a.wacz" Sample.abc Sample.world0 eq_refl eq_refl)
    as (uploaded & w' & Hup & _).
  exists w'. exact Hup.
Defined.

(** No user id configured: the text pushed to the list has no [user]
    field. *)
Lemma redis_payload_without_user :
  exists payload w',
    uploadCollWACZ (Sample.sync0 (Some "redis://h:6379/0/mykey"))
                   "/crawls/a.wacz" "a.wacz" None Sample.world0
    = (Ok tt, w')
    /\ lists w' "redis://h:6379/0" "mykey" = [payload]
    /\ ~ occurs (quote "user") payload.
Proof.
  eexists _, _. split; [vm_compute; reflexivity|].
  split; [vm_compute; reflexivity|].
  apply indexOf_none; [vm_compute; reflexivity | discriminate].
Qed.

Lemma redis_webhook_dispatch_witness :
  notify (Sample.sync1 (Some "redis://h:6379/0")) "a.wacz" Sample.resource0 true
         Sample.world0
  = (Throw (Error redis_format_error),
     after (ConsoleLog "Pinging Webhook: redis://h:6379/0") Sample.world0)
  /\ exists w',
       notify (Sample.sync1 (Some "redis://h:6379/0/mykey")) "a.wacz"
              Sample.resource0 true Sample.world0
       = (Ok tt, w')
       /\ lists w' "redis://h:6379/0" "mykey"
          = [notification_text (Sample.sync1 (Some "redis://h:6379/0/mykey"))
               "a.wacz" Sample.resource0 true].
Proof.
  split.
  - apply (@redis_webhook_dispatch (Sample.sync1 (Some "redis://h:6379/0")) "a.wacz"
             Sample.resource0 true "redis://h:6379/0" Sample.world0 eq_refl eq_refl).
    discriminate.
  - destruct (proj2 (@redis_webhook_dispatch
                       (Sample.sync1 (Some "redis://h:6379/0/mykey")) "a.wacz"
                       Sample.resource0 true "redis://h:6379/0/mykey" Sample.world0
                       eq_refl eq_refl) eq_refl (or_intror eq_refl))
      as (w' & Hrun & Hlist & _).
    exists w'. split; [exact Hrun | exact Hlist].
Defined.

(** A webhook URL of another scheme: the call ends normally and nothing
    was dispatched. *)
Lemma ftp_webhook_is_a_silent_no_op :
  let run := uploadCollWACZ (Sample.sync0 (Some "ftp://example.org/hook"))
                            "/crawls/a.wacz" "a.wacz" None Sample.world0 in
  fst run = Ok tt
  /\ filter is_dispatch (trace (snd run)) = [].
Proof. vm_compute. auto. Qed.

Lemma other_scheme_is_ignored_witness :
  notify (Sample.sync0 (Some "ftp://example.org/hook")) "a.wacz" Sample.resource0
         true Sample.world0
  = (Ok tt, after (ConsoleLog "Pinging Webhook: ftp://example.org/hook") Sample.world0).
Proof.
  apply (@other_scheme_is_ignored (Sample.sync0 (Some "ftp://example.org/hook"))
           "a.wacz" Sample.resource0 true "ftp://example.org/hook" Sample.world0);
    try reflexivity. discriminate.
Defined.

(* ====================================================================== *)
(** ** More of the sync client: failures, downloads, the HTTP webhook *)

Ltac run_world :=
  unfold bind, lift, gets, emit, modify, ret, throw, when;
  cbn beta iota;
  cbn [files store_up http_up redis_up objects connections lists trace fst snd].

Section MoreStorage.

Lemma uploadFile_run this src target data w :
  files w src = Some data ->
  store_up w (bucketName this) (objectPrefix this ++ target) = true ->
  uploadFile this src target w
  = (Ok (resource_of target data), upload_world this src target data w).
Proof.
  intros Hf Hup. unfold uploadFile, console_log.
  step by apply emit_run.
  step by apply emit_run.
  step by apply emit_run.
  step by apply emit_run.
  step by (apply fPutObject_run; eassumption).
  step by (apply checksumFile_run; eassumption).
  step by (apply getFileSize_run; eassumption).
  reflexivity.
Qed.

Lemma fPutObject_fails bucket key src w :
  files w src = None \/ store_up w bucket key = false ->
  fPutObject bucket key src w
  = (Throw (match files w src with
            | None => FsError src
            | Some _ => StoreError bucket key
            end),
     after (FPutObject bucket key src) w).
Proof.
  intros H. unfold fPutObject. run_world.
  destruct (files w src) as [data|]; [|reflexivity].
  destruct H as [H|H]; [discriminate|]. run_world. rewrite H. reflexivity.
Qed.

Lemma uploadFile_fails this src target w :
  files w src = None
  \/ store_up w (bucketName this) (objectPrefix this ++ target) = false ->
  uploadFile this src target w
  = (Throw (match files w src with
            | None => FsError src
            | Some _ => StoreError (bucketName this) (objectPrefix this ++ target)
            end),
     failed_upload_world this src target w).
Proof.
  intros H. unfold uploadFile, console_log.
  step by apply emit_run.
  step by apply emit_run.
  step by apply emit_run.
  step by apply emit_run.
  apply bind_throw.
  match goal with
  | |- fPutObject ?b ?k ?f ?w4 = _ =>
      exact (@fPutObject_fails b k f w4 H)
  end.
Qed.

Lemma fGetObject_run bucket key dest data w :
  store_up w bucket key = true -> objects w bucket key = Some data ->
  fGetObject bucket key dest w = (Ok tt, saved dest data w).
Proof.
  intros Hup Ho. unfold fGetObject. run_world. rewrite Hup, Ho. reflexivity.
Qed.

Lemma fGetObject_missing bucket key dest w :
  objects w bucket key = None ->
  fGetObject bucket key dest w = (Throw (StoreError bucket key), w).
Proof.
  intros Ho. unfold fGetObject. run_world. rewrite Ho.
  destruct (store_up w bucket key); reflexivity.
Qed.

(** X1: a file uploaded under a name comes back byte for byte when that
    name is downloaded, into the destination file and no other; the name
    of an object that is not in the store fails the download and changes
    nothing. *)
Theorem download_returns_what_was_uploaded this src name dest data w :
  files w src = Some data ->
  store_up w (bucketName this) (objectPrefix this ++ name) = true ->
  (exists resource w1 w2,
      uploadFile this src name w = (Ok resource, w1)
      /\ downloadFile this name dest w1 = (Ok tt, w2)
      /\ files w2 dest = Some data
      /\ (forall p, p <> dest -> files w2 p = files w p)
      /\ objects w2 = objects w1)
  /\ (forall other w0,
        objects w0 (bucketName this) (objectPrefix this ++ other) = None ->
        downloadFile this other dest w0
        = (Throw (StoreError (bucketName this) (objectPrefix this ++ other)), w0)).
Proof.
  intros Hf Hup. split.
  - eexists _, _, _. split; [apply uploadFile_run; eassumption|].
    split.
    + unfold downloadFile. apply fGetObject_run.
      * exact Hup.
      * cbn. rewrite !jstr_eqb_refl. reflexivity.
    + cbn. rewrite jstr_eqb_refl. repeat split.
      intros p Hp. unfold jstr_eqb.
      destruct (list_eq_dec ascii_dec p dest); [contradiction | reflexivity].
  - intros other w0 Ho. unfold downloadFile. now apply fGetObject_missing.
Qed.

(** X2: when the upload call fails, for a missing local file or a store
    that refuses, [uploadCollWACZ] fails with that error: the file is not
    read for a digest, nothing is stored and no notification goes out,
    whatever webhook is configured. *)
Theorem failed_upload_stops_everything this src target completed w :
  files w src = None
  \/ store_up w (bucketName this) (objectPrefix this ++ target) = false ->
  exists e w',
    uploadCollWACZ this src target completed w = (Throw e, w')
    /\ e = match files w src with
           | None => FsError src
           | Some _ => StoreError (bucketName this) (objectPrefix this ++ target)
           end
    /\ trace w'
       = trace w ++ upload_banner this target
         ++ [FPutObject (bucketName this) (objectPrefix this ++ target) src]
    /\ objects w' = objects w
    /\ lists w' = lists w.
Proof.
  intros H. eexists _, _. split.
  - unfold uploadCollWACZ. apply bind_throw. apply uploadFile_fails. exact H.
  - split; [reflexivity|]. cbn. rewrite <- !app_assoc. auto.
Qed.

(** X3: without a webhook URL, undefined or empty, a successful
    [uploadCollWACZ] uploads, prints the resource and stops: no webhook
    line on the console, no request, no queue operation. *)
Theorem no_webhook_no_notification this src target completed data w :
  files w src = Some data ->
  store_up w (bucketName this) (objectPrefix this ++ target) = true ->
  opt_truthy (webhookUrl this) = false ->
  uploadCollWACZ this src target completed w
  = (Ok tt,
     after (ConsoleLogResource (resource_of target data))
           (upload_world this src target data w)).
Proof.
  intros Hf Hup Hweb. unfold uploadCollWACZ.
  step by (apply uploadFile_run; eassumption).
  step by apply emit_run.
  unfold notify. destruct (webhookUrl this) as [url|]; [|reflexivity].
  simpl in Hweb. rewrite Hweb. reflexivity.
Qed.

Lemma http_scheme (url : jstr) :
  startsWith url "http://" || startsWith url "https://" = true ->
  truthy url = true.
Proof. destruct url; [discriminate | reflexivity]. Qed.

(** X4: an [http://] or [https://] webhook gets one POST whose body is the
    JSON text of the notification; no queue is touched; when the request
    cannot be made the error reaches the caller. *)
Theorem http_webhook_posts_once this target resource completed url w :
  webhookUrl this = Some url ->
  startsWith url "http://" || startsWith url "https://" = true ->
  let payload := notification_text this target resource completed in
  let posted :=
    after (Fetch url "POST" payload)
          (after (ConsoleLog ("Pinging Webhook: " ++ url)) w) in
  notify this target resource completed w
  = (if http_up w url then Ok tt else Throw (FetchError url), posted)
  /\ trace posted
     = trace w ++ [ConsoleLog ("Pinging Webhook: " ++ url);
                   Fetch url "POST" payload]
  /\ lists posted = lists w
  /\ connections posted = connections w.
Proof.
  intros Hurl Hscheme. cbv zeta.
  unfold notify. rewrite Hurl, (http_scheme _ Hscheme), Hscheme.
  rewrite notification_stringify.
  unfold console_log. step by apply emit_run.
  unfold fetch. step by apply emit_run.
  run_world. split.
  - unfold after. cbn [emit modify snd http_up].
    destruct (http_up w url); reflexivity.
  - cbn. rewrite <- !app_assoc. auto.
Qed.

End MoreStorage.

(* ====================================================================== *)
(** ** Splitting, joining and slicing *)

Section SplitJoin.
Open Scope nat_scope.

Lemma split_nonempty (sep : ascii) (s : jstr) : split sep s <> [].
Proof.
  destruct s as [|c s]; simpl; [discriminate|].
  destruct (Ascii.eqb c sep); [discriminate|].
  destruct (split sep s); discriminate.
Qed.

Lemma join_split (sep : ascii) (s : jstr) : join [sep] (split sep s) = s.
Proof.
  induction s as [|c s IH]; [reflexivity|].
  cbn [split]. destruct (Ascii.eqb c sep) eqn:E.
  - apply Ascii.eqb_eq in E. subst c.
    pose proof (split_nonempty sep s) as Hne.
    cbn [join]. destruct (split sep s) as [|w ws]; [contradiction|].
    rewrite IH. reflexivity.
  - pose proof (split_nonempty sep s) as Hne.
    destruct (split sep s) as [|w ws]; [contradiction|].
    cbn [join] in *. destruct ws as [|w' ws]; simpl in *; now rewrite IH.
Qed.

Lemma split_parts_clean (sep : ascii) (s : jstr) :
  Forall (fun w => ~ In sep w) (split sep s).
Proof.
  induction s as [|c s IH]; cbn [split].
  - constructor; [intros [] | constructor].
  - destruct (Ascii.eqb c sep) eqn:E.
    + constructor; [intros [] | exact IH].
    + apply Ascii.eqb_neq in E.
      destruct (split sep s) as [|w ws]; [repeat constructor; intros [F|[]]; congruence|].
      inversion IH as [|? ? Hw Hws]; subst. constructor; [|exact Hws].
      intros [F|F]; [congruence | contradiction].
Qed.

Lemma join_snoc (sep : jstr) (x : jstr) : forall l,
  l <> [] -> join sep (l ++ [x]) = join sep l ++ sep ++ x.
Proof.
  induction l as [|a l IH]; intros Hne; [contradiction|].
  destruct l as [|b l].
  - reflexivity.
  - change (join sep ((a :: b :: l) ++ [x]))
      with (a ++ sep ++ join sep ((b :: l) ++ [x])).
    rewrite IH by discriminate.
    change (join sep (a :: b :: l)) with (a ++ sep ++ join sep (b :: l)).
    now rewrite <- !app_assoc.
Qed.

Lemma five_parts (parts : list jstr) :
  length parts = 5 -> parts = firstn 4 parts ++ [nth 4 parts []].
Proof.
  destruct parts as [|a [|b [|c [|d [|e [|f r]]]]]]; try discriminate.
  reflexivity.
Qed.





(** The last [n] characters, all of them when there are fewer. *)
Lemma slice_from_end (s : jstr) (n : nat) :
  0 < n ->
  exists front,
    s = front ++ slice_from s (- Z.of_nat n)
    /\ length (slice_from s (- Z.of_nat n)) = Nat.min n (length s).
Proof.
  intros Hn. unfold slice_from.
  set (k := Z.to_nat _).
  exists (firstn k s). split; [symmetry; apply firstn_skipn|].
  rewrite length_skipn. subst k.
  destruct (Z.ltb_spec (- Z.of_nat n) 0); lia.
Qed.

End SplitJoin.

(* ====================================================================== *)
(** ** The redis key, the store path, the environment, the arguments *)

Section MoreStorage2.

Lemma notify_redis_run this target resource completed url w :
  webhookUrl this = Some url ->
  startsWith url "redis://" = true ->
  length (split "/" url) = 5%nat ->
  redis_reachable w (join "/" (firstn 4 (split "/" url))) ->
  notify this target resource completed w
  = (Ok tt,
     pushed (join "/" (firstn 4 (split "/" url))) (nth 4 (split "/" url) "")
            (notification_text this target resource completed)
       (after (RPush (join "/" (firstn 4 (split "/" url)))
                     (nth 4 (split "/" url) "")
                     (notification_text this target resource completed))
          (connected (join "/" (firstn 4 (split "/" url)))
             (after (InitRedis (join "/" (firstn 4 (split "/" url))))
                (after (ConsoleLog ("Pinging Webhook: " ++ url)) w))))).
Proof.
  intros Hurl Hscheme Hlen Hr.
  destruct (redis_scheme _ Hscheme) as (Ht & H1 & H2).
  unfold notify. rewrite Hurl, Ht, H1, H2, Hscheme. cbn [orb].
  unfold console_log. step by apply emit_run.
  rewrite Hlen. cbn [Nat.eqb negb].
  step by (apply initRedis_run; exact Hr).
  rewrite rpush_run, notification_stringify. reflexivity.
Qed.

(** X5: on a five-segment [redis://] webhook, the connection URL given to
    [initRedis], a slash and the list key spell the webhook URL again; the
    key is what follows the last slash, and it holds none. *)
Theorem redis_connection_and_key_recompose this target resource completed url w :
  webhookUrl this = Some url ->
  startsWith url "redis://" = true ->
  length (split "/" url) = 5%nat ->
  redis_reachable w (join "/" (firstn 4 (split "/" url))) ->
  exists conn key payload w',
    notify this target resource completed w = (Ok tt, w')
    /\ trace w'
       = trace w ++ [ConsoleLog ("Pinging Webhook: " ++ url);
                     InitRedis conn; RPush conn key payload]
    /\ conn ++ "/" ++ key = url
    /\ ~ In "/"%char key.
Proof.
  intros Hurl Hscheme Hlen Hr.
  eexists _, _, _, _. split; [apply notify_redis_run; eassumption|].
  split; [|split].
  - cbn [pushed trace after emit modify snd].
    rewrite (proj2 (connected_keeps _ _)). cbn. rewrite <- !app_assoc. reflexivity.
  - rewrite <- (join_split "/" url) at 3.
    rewrite (five_parts _ Hlen) at 3.
    rewrite join_snoc; [reflexivity|].
    destruct (split "/" url) as [|a [|b r]]; discriminate.
  - pose proof (split_parts_clean "/" url) as Hc.
    rewrite Forall_forall in Hc. apply Hc.
    apply nth_In. rewrite Hlen. lia.
Qed.


Lemma or_else_nonempty (a : option jstr) (b : jstr) :
  b <> [] -> or_else a b <> [] /\ (a = Some (or_else a b) \/ or_else a b = b).
Proof.
  intros Hb. unfold or_else. destruct a as [[|c s]|]; simpl; split; auto; discriminate.
Qed.

(** X7: [initStorage] gives no storage, prints nothing and parses nothing
    when [STORE_ENDPOINT_URL] is unset or empty.  When it gives one, the
    crawl id is [CRAWL_ID] or else the host name and never empty, the user
    id and the webhook are the environment's (undefined when unset), and
    the endpoint that was parsed is [STORE_ENDPOINT_URL] followed by
    [STORE_PATH]. *)
Theorem initStorage_reads_the_environment new_URL without_credentials env os_hostname w :
  os_hostname <> [] ->
  (opt_truthy (STORE_ENDPOINT_URL env) = false ->
     initStorage new_URL without_credentials env os_hostname w = (Ok None, w))
  /\ (forall this w',
        initStorage new_URL without_credentials env os_hostname w
        = (Ok (Some this), w') ->
        exists id url,
          Storage.crawlId this = Some id
          /\ id <> []
          /\ (CRAWL_ID env = Some id \/ id = os_hostname)
          /\ userId this = STORE_USER env
          /\ webhookUrl this = WEBHOOK_URL env
          /\ new_URL (or_else (STORE_ENDPOINT_URL env) ""
                      ++ or_else (STORE_PATH env) "") = Some url
          /\ fullPrefix this = href url
          /\ w' = after (ConsoleLog "Initing Storage...") w).
Proof.
  intros Hh. split.
  - intros H. unfold initStorage. rewrite H. reflexivity.
  - intros this w'. unfold initStorage, construct.
    destruct (negb _); [intros H; inversion H|].
    unfold console_log. unfold bind, emit, modify, lift, ret.
    destruct (new_URL _) as [url|] eqn:E; intros H; inversion H; subst.
    destruct (or_else_nonempty (CRAWL_ID env) Hh) as [Hn Hc].
    exists (or_else (CRAWL_ID env) os_hostname), url.
    cbn [Storage.crawlId userId webhookUrl fullPrefix
         opt_crawlId opt_userId opt_webhookUrl].
    repeat split; auto.
Qed.

End MoreStorage2.

Section Arguments.

(** X8: the words of [CRAWL_ARGS] come after the given arguments, which
    stay as they are; joined by single spaces the added words give
    [CRAWL_ARGS] back, so two spaces in a row add an empty argument; an
    unset or empty [CRAWL_ARGS] adds nothing. *)
Theorem crawl_args_are_appended argv process_argv CRAWL_ARGS :
  let given := match argv with Some a => a | None => process_argv end in
  (opt_truthy CRAWL_ARGS = false ->
     effective_argv argv process_argv CRAWL_ARGS = given)
  /\ (forall text,
        CRAWL_ARGS = Some text -> text <> [] ->
        exists words,
          effective_argv argv process_argv CRAWL_ARGS = given ++ words
          /\ join " " words = text
          /\ words <> []
          /\ Forall (fun word => ~ In " "%char word) words).
Proof.
  cbv zeta. unfold effective_argv. split.
  - intros ->. reflexivity.
  - intros text -> Hne.
    assert (Ht : truthy text = true) by (destruct text; [contradiction | reflexivity]).
    cbn [opt_truthy or_else]. rewrite Ht.
    exists (split " " text). split; [reflexivity|].
    split; [apply join_split|].
    split; [apply split_nonempty | apply split_parts_clean].
Qed.

End Arguments.

(* ====================================================================== *)
(** ** More of [interpolateFilename] *)

Section MoreInterpolation.
Open Scope nat_scope.

Lemma indexOf_plain (t s : jstr) :
  token t -> ~ In "@"%char s -> indexOf s t = None.
Proof.
  intros Ht Hs. rewrite <- (app_nil_r s).
  rewrite indexOf_after_plain_prefix by assumption.
  destruct Ht as (body & -> & _). reflexivity.
Qed.

Lemma replace_plain (t s r : jstr) :
  token t -> ~ In "@"%char s -> replace s t r = s.
Proof.
  intros Ht Hs. unfold replace. now rewrite indexOf_plain.
Qed.

Lemma token_ts : token "@ts".
Proof. apply tokens_are_tokens. simpl. tauto. Qed.

Lemma token_hostname : token "@hostname".
Proof. apply tokens_are_tokens. simpl. tauto. Qed.

Lemma token_hostsuffix : token "@hostsuffix".
Proof. apply tokens_are_tokens. simpl. tauto. Qed.

Lemma token_id : token "@id".
Proof. apply tokens_are_tokens. simpl. tauto. Qed.

(** X9: a template without an at-sign comes back unchanged, whatever the
    clock, the host name and the crawl id are. *)
Theorem template_without_tokens_is_unchanged host template crawlId :
  ~ In "@"%char template ->
  interpolateFilename host template crawlId = template.
Proof.
  intros H. unfold interpolateFilename.
  rewrite (@replace_plain _ _ _ token_ts H).
  rewrite (@replace_plain _ _ _ token_hostname H).
  rewrite (@replace_plain _ _ _ token_hostsuffix H).
  apply (@replace_plain _ _ _ token_id H).
Qed.

Lemma stamp_is_clean (s : jstr) (c : ascii) :
  In c (remove_class ts_strip s) -> in_class ts_strip c = false.
Proof.
  unfold remove_class. intros H. apply filter_In in H.
  destruct H as [_ H]. now apply negb_true_iff in H.
Qed.

Lemma stamp_of_iso_is_digits (s : jstr) :
  forallb iso_char s = true ->
  forallb is_digit (remove_class ts_strip s) = true.
Proof.
  unfold remove_class. induction s as [|c s IH]; [reflexivity|].
  cbn [forallb filter]. intros H. apply andb_true_iff in H. destruct H as [Hc Hs].
  destruct (in_class ts_strip c) eqn:E; cbn [negb].
  - now apply IH.
  - cbn [forallb]. rewrite IH by exact Hs.
    unfold iso_char in Hc. rewrite E, orb_false_r in Hc. now rewrite Hc.
Qed.

Lemma digit_is_name_char (c : ascii) :
  is_digit c = true -> in_class (word ++ [Ch "-"]) c = true.
Proof. destruct c as [[] [] [] [] [] [] [] []]; vm_compute; auto. Qed.

Lemma digit_is_plain (c : ascii) :
  is_digit c = true -> c <> "@"%char /\ c <> "$"%char.
Proof. intros H. split; intros ->; discriminate. Qed.

Lemma digits_are_plain (s : jstr) : forallb is_digit s = true -> plain s.
Proof.
  intros H. rewrite forallb_forall in H.
  split; intros F; apply H, digit_is_plain in F; tauto.
Qed.

(** X10: the time stamp put in for [@ts] holds none of [: T Z z . -]; and
    with a clock string of digits and those characters, as [toISOString]
    prints it, the default template [crawl-@ts] becomes [crawl-] followed by
    the digits of the clock, a name the collection-name pattern accepts. *)
Theorem default_collection_name_is_valid host crawlId :
  let stamp := remove_class ts_strip (now_iso host) in
  (forall c, In c stamp -> ~ In c [":"; "T"; "Z"; "z"; "."; "-"]%char)
  /\ (forallb iso_char (now_iso host) = true ->
      interpolateFilename host "crawl-@ts" crawlId = "crawl-" ++ stamp
      /\ forallb is_digit stamp = true
      /\ search_anchored collection_rx
           (interpolateFilename host "crawl-@ts" crawlId) = 0%Z).
Proof.
  cbv zeta. split.
  - intros c Hc Hin. apply stamp_is_clean in Hc.
    simpl in Hin.
    destruct Hin as [<-|[<-|[<-|[<-|[<-|[<-|[]]]]]]]; discriminate.
  - intros Hiso. pose proof (@stamp_of_iso_is_digits _ Hiso) as Hd.
    set (stamp := remove_class ts_strip (now_iso host)) in *.
    destruct (@digits_are_plain _ Hd) as [Hat Hdollar].
    assert (E : interpolateFilename host "crawl-@ts" crawlId = "crawl-" ++ stamp).
    { unfold interpolateFilename. fold stamp.
      assert (E1 : replace "crawl-@ts" "@ts" stamp = "crawl-" ++ stamp).
      { unfold replace.
        change (indexOf "crawl-@ts" "@ts") with (Some 6).
        cbn [firstn skipn length Nat.add app].
        rewrite GetSubstitution_plain by exact Hdollar. now rewrite app_nil_r. }
      rewrite E1.
      assert (Hp : ~ In "@"%char ("crawl-" ++ stamp)).
      { intros F. apply in_app_or in F. destruct F as [F|F]; [|contradiction].
        simpl in F. intuition discriminate. }
      rewrite (@replace_plain _ _ _ token_hostname Hp).
      rewrite (@replace_plain _ _ _ token_hostsuffix Hp).
      apply (@replace_plain _ _ _ token_id Hp). }
    split; [exact E|]. split; [exact Hd|].
    rewrite E. unfold search_anchored, collection_rx.
    rewrite head_tail_matches.
    change ("crawl-" ++ stamp)
      with ("c"%char :: "r"%char :: "a"%char :: "w"%char :: "l"%char :: "-"%char :: stamp).
    cbn [forallb].
    assert (Ht : forallb (in_class (word ++ [Ch "-"])) stamp = true).
    { apply forallb_forall. intros c Hc. apply digit_is_name_char.
      rewrite forallb_forall in Hd. now apply Hd. }
    rewrite Ht.
    change (in_class word "c") with true.
    change (in_class (word ++ [Ch "-"]) "r") with true.
    change (in_class (word ++ [Ch "-"]) "a") with true.
    change (in_class (word ++ [Ch "-"]) "w") with true.
    change (in_class (word ++ [Ch "-"]) "l") with true.
    change (in_class (word ++ [Ch "-"]) "-") with true.
    reflexivity.
Qed.

Lemma skipn_keeps_out (c : ascii) (s : jstr) (k : nat) :
  ~ In c s -> ~ In c (skipn k s).
Proof.
  intros H F. apply H. rewrite <- (firstn_skipn k s).
  apply in_or_app. now right.
Qed.

(** X11: with a host name and a crawl id free of at and dollar signs, the
    template that is just one token becomes that token's value: [@hostname]
    the host name, [@id] the crawl id, and [@hostsuffix] the last fourteen
    characters of the host name, the whole name when it is shorter. *)
Theorem single_token_templates host crawlId :
  plain (hostname host) ->
  interpolateFilename host "@hostname" crawlId = hostname host
  /\ (~ In "$"%char crawlId ->
      interpolateFilename host "@id" crawlId = crawlId)
  /\ exists front suffix,
       interpolateFilename host "@hostsuffix" crawlId = suffix
       /\ hostname host = front ++ suffix
       /\ length suffix = Nat.min 14 (length (hostname host)).
Proof.
  intros [Hat Hdollar]. split; [|split].
  - unfold interpolateFilename.
    change (replace "@hostname" "@ts" (remove_class ts_strip (now_iso host)))
      with "@hostname".
    assert (E : replace "@hostname" "@hostname" (hostname host) = hostname host).
    { unfold replace. change (indexOf "@hostname" "@hostname") with (Some 0).
      cbn [firstn skipn length Nat.add app].
      rewrite GetSubstitution_plain by exact Hdollar. apply app_nil_r. }
    rewrite E.
    rewrite (@replace_plain _ _ _ token_hostsuffix Hat).
    apply (@replace_plain _ _ _ token_id Hat).
  - intros Hid. unfold interpolateFilename.
    change (replace "@id" "@ts" (remove_class ts_strip (now_iso host))) with "@id".
    change (replace "@id" "@hostname" (hostname host)) with "@id".
    change (replace "@id" "@hostsuffix" (slice_from (hostname host) (-14))) with "@id".
    unfold replace. change (indexOf "@id" "@id") with (Some 0).
    cbn [firstn skipn length Nat.add app].
    rewrite GetSubstitution_plain by exact Hid. apply app_nil_r.
  - destruct (@slice_from_end (hostname host) 14) as (front & Hf & Hl); [lia|].
    change (- Z.of_nat 14)%Z with (-14)%Z in *.
    exists front, (slice_from (hostname host) (-14)).
    split; [|split; assumption].
    unfold interpolateFilename.
    change (replace "@hostsuffix" "@ts" (remove_class ts_strip (now_iso host)))
      with "@hostsuffix".
    change (replace "@hostsuffix" "@hostname" (hostname host)) with "@hostsuffix".
    assert (Hs1 : ~ In "@"%char (slice_from (hostname host) (-14)))
      by (unfold slice_from; now apply skipn_keeps_out).
    assert (Hs2 : ~ In "$"%char (slice_from (hostname host) (-14)))
      by (unfold slice_from; now apply skipn_keeps_out).
    assert (E : replace "@hostsuffix" "@hostsuffix" (slice_from (hostname host) (-14))
                = slice_from (hostname host) (-14)).
    { unfold replace. change (indexOf "@hostsuffix" "@hostsuffix") with (Some 0).
      cbn [firstn skipn length Nat.add app].
      rewrite GetSubstitution_plain by exact Hs2. apply app_nil_r. }
    rewrite E. apply (@replace_plain _ _ _ token_id Hs1).
Qed.

End MoreInterpolation.

(* ====================================================================== *)
(** ** More of the resolver: every step of [validateArgs] *)

Section MoreResolver.

Variables Device ScopedSeed : Type.
Variable env : Collaborators Device ScopedSeed.

Lemma jstr_eqb_eq (a b : jstr) : jstr_eqb a b = true <-> a = b.
Proof.
  unfold jstr_eqb. destruct (list_eq_dec ascii_dec a b); split; intros H;
    try reflexivity; try discriminate; try assumption; contradiction.
Qed.

Lemma jstr_eqb_neq (a b : jstr) : jstr_eqb a b = false <-> a <> b.
Proof.
  unfold jstr_eqb. destruct (list_eq_dec ascii_dec a b); split; intros H;
    try reflexivity; try discriminate; try assumption; contradiction.
Qed.

Lemma includes_all (known tokens : list jstr) :
  forallb (includes known) tokens = true <-> forall t, In t tokens -> In t known.
Proof.
  rewrite forallb_forall. split; intros H t Ht.
  - apply (proj1 (includes_In known t)). now apply H.
  - apply (proj2 (includes_In known t)). now apply H.
Qed.

Lemma resolveWaitUntil_eq v o :
  resolveWaitUntil v o
  = if forallb (includes WAIT_UNTIL_OPTS) (wait_tokens v)
    then (Ok (wait_tokens v), o)
    else (Throw (Error waitUntil_error), o).
Proof.
  unfold resolveWaitUntil, wait_tokens.
  destruct (forallb _ _); reflexivity.
Qed.

Lemma filterScreenshots_eq passed : forall acc o,
  filterScreenshots env passed acc o
  = (Ok (acc ++ filter (known_kind env) passed),
     o ++ map not_found_line (filter (fun e => negb (known_kind env e)) passed)).
Proof.
  unfold known_kind.
  induction passed as [|e passed IH]; intros acc o.
  - simpl. now rewrite !app_nil_r.
  - cbn [filterScreenshots filter].
    destruct (in_op e (screenshotTypes env)) eqn:E; cbn [negb].
    + rewrite IH. now rewrite <- app_assoc.
    + unfold bind. rewrite say_run, IH. cbn [map].
      now rewrite <- app_assoc.
Qed.

Lemma resolveScreenshot_eq text o :
  resolveScreenshot env (Str text) o
  = (Ok (if truthy text
         then Arr (filter (known_kind env) (split "," text))
         else Str text),
     o ++ screenshot_lines env (Str text)).
Proof.
  unfold resolveScreenshot, screenshot_lines. destruct (truthy text).
  - unfold bind. rewrite filterScreenshots_eq. reflexivity.
  - unfold ret. now rewrite app_nil_r.
Qed.

Lemma resolveNewContext_eq v workers o :
  resolveNewContext v workers o
  = (Ok (if 1 <? workers then ReuseWindowConcurrency else CONCURRENCY_PAGE),
     o ++ context_lines v workers).
Proof.
  unfold resolveNewContext, context_lines, when, bind.
  destruct v as [|[|c s]| |]; destruct (1 <? workers); cbn;
    rewrite <- ?app_assoc; reflexivity.
Qed.

Lemma mergeSeedFile_eq seedFile seeds o :
  mergeSeedFile env seedFile seeds o
  = if opt_truthy seedFile then
      match readFileSync env (match seedFile with Some f => f | None => [] end) with
      | Some text => (Ok (SeedsArr (seeds_with_file seeds text)), o)
      | None => (Throw (FsError (match seedFile with Some f => f | None => [] end)), o)
      end
    else (Ok seeds, o).
Proof.
  unfold mergeSeedFile, seeds_with_file, flag_seeds.
  destruct (opt_truthy seedFile); [|reflexivity].
  destruct (readFileSync env _); [|reflexivity].
  unfold ret. rewrite fold_push_seeds. do 5 f_equal.
  apply filter_ext. intros line. destruct line; reflexivity.
Qed.

Lemma resolveNetIdleWait_eq n sc o :
  resolveNetIdleWait n sc o = (Ok (resolved_idle n sc), o ++ idle_lines n sc).
Proof.
  unfold resolveNetIdleWait, idle_lines, resolved_idle.
  destruct (n =? -1) eqn:E.
  - unfold bind. rewrite say_run. reflexivity.
  - unfold ret. now rewrite app_nil_r.
Qed.

Lemma resolveScopeType_eq inc sc o :
  resolveScopeType inc sc o = (Ok (resolved_scope inc sc), o ++ scope_lines inc sc).
Proof.
  unfold resolveScopeType, resolved_scope, scope_lines, overrides.
  destruct (include_given inc); cbn [andb].
  - destruct (opt_truthy sc && negb (scope_is sc "custom")).
    + unfold bind. rewrite say_run. reflexivity.
    + unfold ret. now rewrite app_nil_r.
  - unfold ret. now rewrite app_nil_r.
Qed.

Lemma buildScopedSeeds_inv scopeOpts seeds : forall acc o r o',
  buildScopedSeeds env scopeOpts seeds acc o = (Ok r, o') ->
  exists built,
    r = acc ++ built
    /\ Forall2 (fun s b => newScopedSeed env (spread scopeOpts (seed_options s)) = Ok b)
               seeds built.
Proof.
  induction seeds as [|x seeds IH]; intros acc o r o' H; simpl in H.
  - inversion H. exists []. split; [now rewrite app_nil_r | constructor].
  - unfold bind, lift in H.
    destruct (newScopedSeed env _) as [sc|e] eqn:E; [|discriminate].
    apply IH in H. destruct H as (built & -> & HF).
    exists (sc :: built). split; [now rewrite <- app_assoc|].
    constructor; [|exact HF]. destruct x; exact E.
Qed.


(** A successful run of lines 357-479, field by field. *)
Lemma afterCollection_fields argv name out argv' out' :
  afterCollection env argv name out = (Ok argv', out') ->
  (waitUntil argv' = Arr (wait_tokens (waitUntil argv))
   /\ forall t, In t (wait_tokens (waitUntil argv)) -> In t WAIT_UNTIL_OPTS)
  /\ (exists text,
        screenshot argv = Str text
        /\ screenshot argv'
           = if truthy text
             then Arr (filter (known_kind env) (split "," text))
             else Str text)
  /\ (exists text,
        logging argv = Str text
        /\ logging argv' = Arr (split "," text)
        /\ let r := composeBehaviorOpts env (wait_tokens (behaviors argv))
                      (behaviorTimeout argv) (split "," text)
                      (behaviorsLogDebug argv) in
           behaviorOpts argv' = Some (stringify (JObj (fst (fst r))))
           /\ behaviorTimeout argv' = snd (fst r)
           /\ behaviorsLogDebug argv' = snd r)
  /\ behaviors argv' = Arr (wait_tokens (behaviors argv))
  /\ newContext argv'
     = (if 1 <? workers argv then ReuseWindowConcurrency else CONCURRENCY_PAGE)
  /\ resolveDevice env (mobileDevice argv) (emulateDevice argv) out
     = (Ok (emulateDevice argv'), out)
  /\ (seeds argv' = resolved_seeds env argv
      /\ forall file, seedFile argv = Some file -> file <> [] ->
           exists text, readFileSync env file = Some text)
  /\ netIdleWait argv' = resolved_idle (netIdleWait argv) (scopeType argv)
  /\ scopeType argv' = resolved_scope (include argv) (scopeType argv)
  /\ Forall2 (fun s b => newScopedSeed env (merged_options argv s) = Ok b)
             (seeds_iter (resolved_seeds env argv)) (scopedSeeds argv')
  /\ statsFilename argv'
     = (if opt_truthy (statsFilename argv)
        then option_map (path_resolve env (cwd argv)) (statsFilename argv)
        else statsFilename argv)
  /\ (crawlId argv' = crawlId argv /\ workers argv' = workers argv
      /\ mobileDevice argv' = mobileDevice argv /\ seedFile argv' = seedFile argv
      /\ include argv' = include argv /\ exclude argv' = exclude argv
      /\ sitemap argv' = sitemap argv /\ depth argv' = depth argv
      /\ extraHops argv' = extraHops argv /\ cwd argv' = cwd argv)
  /\ out' = out ++ transcript env argv.
Proof.
  unfold afterCollection. intros H.
  apply bind_ok in H. destruct H as (wu & s1 & E1 & H).
  apply bind_ok in H. destruct H as (sh & s2 & E2 & H).
  apply bind_ok in H. destruct H as (lg & s3 & E3 & H).
  destruct (composeBehaviorOpts _ _ _ _ _) as [[bo bt] dbg] eqn:Hc.
  apply bind_ok in H. destruct H as (nc & s4 & E4 & H).
  apply bind_ok in H. destruct H as (dv & s5 & E5 & H).
  apply bind_ok in H. destruct H as (sd & s6 & E6 & H).
  apply bind_ok in H. destruct H as (ni & s7 & E7 & H).
  apply bind_ok in H. destruct H as (sc & s8 & E8 & H).
  apply bind_ok in H. destruct H as (ss & s9 & E9 & H).
  rewrite resolveWaitUntil_eq in E1.
  destruct (forallb _ _) eqn:Hw in E1; [|discriminate].
  inversion E1; subst wu s1; clear E1.
  destruct (screenshot argv) as [shot|] eqn:Eshot; [|discriminate].
  rewrite resolveScreenshot_eq in E2. inversion E2; subst sh s2; clear E2.
  destruct (logging argv) as [channels|] eqn:Elog; [|discriminate].
  inversion E3; subst lg s3; clear E3.
  rewrite resolveNewContext_eq in E4. inversion E4; subst nc s4; clear E4.
  pose proof (resolveDevice_silent _ _ _ _ E5) as Es5. subst s5.
  rewrite mergeSeedFile_eq in E6.
  rewrite resolveNetIdleWait_eq in E7.
  rewrite resolveScopeType_eq in E8.
  pose proof (buildScopedSeeds_silent _ _ _ _ _ E9) as Es9. subst s9.
  apply buildScopedSeeds_inv in E9. destruct E9 as (built & -> & HF).
  assert (Hsd : sd = resolved_seeds env argv
                /\ s6 = out ++ screenshot_lines env (Str shot)
                            ++ context_lines (newContext argv) (workers argv)
                /\ forall file, seedFile argv = Some file -> file <> [] ->
                     exists text, readFileSync env file = Some text).
  { unfold resolved_seeds. destruct (opt_truthy (seedFile argv)) eqn:Et.
    - destruct (readFileSync env _) as [text|] eqn:Er; [|discriminate].
      inversion E6; subst. split; [reflexivity|]. split; [now rewrite <- app_assoc|].
      intros file Hf _. rewrite Hf in Er. eauto.
    - inversion E6; subst. split; [reflexivity|]. split; [now rewrite <- app_assoc|].
      intros file Hf Hne. rewrite Hf in Et. destruct file; [contradiction | discriminate]. }
  destruct Hsd as (-> & -> & Hfile).
  inversion E7; subst ni s7; clear E7.
  inversion E8; subst sc s8; clear E8.
  inversion H; subst; clear H. cbn [waitUntil screenshot logging behaviors
    newContext emulateDevice seeds netIdleWait scopeType scopedSeeds
    statsFilename crawlId workers mobileDevice seedFile include exclude sitemap
    depth extraHops cwd behaviorOpts behaviorTimeout behaviorsLogDebug].
  split; [split; [reflexivity | now apply includes_all]|].
  split; [exists shot; split; reflexivity|].
  split.
  { exists channels. split; [reflexivity|]. split; [reflexivity|].
    unfold wait_tokens. rewrite Hc. cbn. auto. }
  split; [reflexivity|]. split; [reflexivity|].
  split.
  { unfold resolveDevice in *.
    destruct (mobileDevice argv) as [dev|]; [destruct (truthy dev);
      [destruct (devices env dev)|]|]; inversion E5; reflexivity. }
  split; [split; [reflexivity | exact Hfile]|].
  split; [reflexivity|]. split; [reflexivity|].
  split; [exact HF|].
  split; [reflexivity|].
  split; [repeat split|].
  unfold transcript. rewrite Eshot. now rewrite <- !app_assoc.
Qed.

Lemma validateArgs_name_ok argv out :
  fullmatch collection_rx
    (interpolateFilename (host env) (collection argv) (crawlId argv)) = true ->
  validateArgs env argv out
  = afterCollection env argv
      (interpolateFilename (host env) (collection argv) (crawlId argv)) out.
Proof.
  intros H. unfold validateArgs, search_anchored. now rewrite H.
Qed.

Lemma validateArgs_fields argv out argv' out' :
  validateArgs env argv out = (Ok argv', out') ->
  fullmatch collection_rx
    (interpolateFilename (host env) (collection argv) (crawlId argv)) = true
  /\ afterCollection env argv
       (interpolateFilename (host env) (collection argv) (crawlId argv)) out
     = (Ok argv', out').
Proof.
  unfold validateArgs, search_anchored.
  destruct (fullmatch _ _); simpl; [auto | discriminate].
Qed.

Lemma get_overwrite_other k k' v (o : obj) :
  k <> k' -> get k (overwrite k' v o) = get k o.
Proof.
  intros Hne. induction o as [|[k0 v0] r IH]; [reflexivity|].
  cbn [overwrite]. destruct (jstr_eqb k' k0) eqn:E; cbn [get].
  - apply jstr_eqb_eq in E. subst k0.
    apply jstr_eqb_neq in Hne. now rewrite Hne.
  - now rewrite IH.
Qed.

Lemma get_insert_other n k k' v (o : obj) :
  k <> k' -> get k (insert_index n k' v o) = get k o.
Proof.
  intros Hne. apply jstr_eqb_neq in Hne.
  induction o as [|[k0 v0] r IH]; cbn [insert_index get].
  - now rewrite Hne.
  - destruct (array_index k0) as [m|]; [destruct (n <? m)%N|]; cbn [get];
      rewrite ?Hne, ?IH; reflexivity.
Qed.

Lemma get_append_other k k' v (o : obj) :
  k <> k' -> get k (o ++ [(k', v)]) = get k o.
Proof.
  intros Hne. apply jstr_eqb_neq in Hne.
  induction o as [|[k0 v0] r IH]; cbn [app get].
  - now rewrite Hne.
  - now rewrite IH.
Qed.

Lemma get_define_other k k' v (o : obj) :
  k <> k' -> get k (define k' v o) = get k o.
Proof.
  intros Hne. unfold define. destruct (has_key k' o).
  - now apply get_overwrite_other.
  - destruct (array_index k');
      [now apply get_insert_other | now apply get_append_other].
Qed.





Lemma has_key_In k (o : obj) : has_key k o = true <-> In k (map fst o).
Proof.
  induction o as [|[k0 v0] r IH]; cbn [has_key map fst In].
  - split; [discriminate | contradiction].
  - rewrite orb_true_iff, IH, jstr_eqb_eq. intuition congruence.
Qed.

Lemma has_key_false k (o : obj) : has_key k o = false <-> ~ In k (map fst o).
Proof.
  rewrite <- has_key_In. destruct (has_key k o); intuition congruence.
Qed.

(** In [{...a, ...b}] a property of [b] wins; one that [b] does not have
    keeps the value it has in [a]. *)
Lemma spread_get (k : jstr) (b : obj) : forall a,
  NoDup (map fst b) ->
  get k (spread a b) = if has_key k b then get k b else get k a.
Proof.
  unfold spread. induction b as [|[k0 v0] r IH]; intros a Hnd; [reflexivity|].
  cbn [fold_left fst snd has_key get map] in *.
  inversion Hnd as [|? ? Hk0 Hr]; subst.
  rewrite IH by exact Hr.
  destruct (jstr_eqb k k0) eqn:E; cbn [orb].
  - apply jstr_eqb_eq in E. subst k0.
    apply has_key_false in Hk0. rewrite Hk0. apply define_get.
  - destruct (has_key k r); [reflexivity|].
    apply get_define_other. now apply jstr_eqb_neq.
Qed.




(** X12: every token of [waitUntil], given as a comma-separated string or
    as a list, must be one of the four known conditions: a resolved
    configuration holds the tokens as a list, all of them known, and with
    a valid collection name one unknown token, the empty one included,
    aborts resolution with the waitUntil error before anything is
    printed. *)
Theorem waitUntil_tokens_are_validated argv out :
  (forall argv' out',
      validateArgs env argv out = (Ok argv', out') ->
      waitUntil argv' = Arr (wait_tokens (waitUntil argv))
      /\ forall t, In t (wait_tokens (waitUntil argv)) -> In t WAIT_UNTIL_OPTS)
  /\ (fullmatch collection_rx
        (interpolateFilename (host env) (collection argv) (crawlId argv)) = true ->
      (exists t, In t (wait_tokens (waitUntil argv)) /\ ~ In t WAIT_UNTIL_OPTS) ->
      validateArgs env argv out = (Throw (Error waitUntil_error), out)).
Proof.
  split.
  - intros argv' out' H. apply validateArgs_fields in H. destruct H as [_ H].
    apply afterCollection_fields in H. tauto.
  - intros Hname (t & Ht & Hbad). rewrite validateArgs_name_ok by exact Hname.
    unfold afterCollection. apply bind_throw. rewrite resolveWaitUntil_eq.
    destruct (forallb _ _) eqn:E; [|reflexivity].
    elim Hbad. exact (proj1 (includes_all _ _) E t Ht).
Qed.


(** X14: the concurrency mode depends on the worker count alone: the
    shared-window one for more than one worker, the per-page one
    otherwise, whatever [newContext] was given. *)
Theorem concurrency_follows_workers argv out argv' out' :
  validateArgs env argv out = (Ok argv', out') ->
  (1 < workers argv -> newContext argv' = ReuseWindowConcurrency)
  /\ (workers argv <= 1 -> newContext argv' = CONCURRENCY_PAGE).
Proof.
  intros H. apply validateArgs_fields in H. destruct H as [_ H].
  apply afterCollection_fields in H.
  destruct H as (_ & _ & _ & _ & -> & _).
  split; intros Hw.
  - apply Z.ltb_lt in Hw. now rewrite Hw.
  - destruct (Z.ltb_spec 1 (workers argv)); [lia | reflexivity].
Qed.




(** X17: one scoped seed is built per seed, in order, from the shared
    scope options merged with the seed's own: a string seed gives its URL,
    and in an object seed (with distinct keys) every field it has wins over
    the shared option of that name, while the fields it lacks keep the
    shared value, the resolved scope type among them. *)
Theorem scoped_seeds_merge_shared_options argv out argv' out' :
  validateArgs env argv out = (Ok argv', out') ->
  let shared :=
    scope_options argv (resolved_scope (include argv) (scopeType argv)) in
  Forall2 (fun s built =>
             exists merged,
               newScopedSeed env merged = Ok built
               /\ (NoDup (map fst (seed_options s)) ->
                   forall k,
                     get k merged
                     = if has_key k (seed_options s)
                       then get k (seed_options s) else get k shared)
               /\ (forall url, s = SeedStr url ->
                     get "url" merged = JStr url
                     /\ get "scopeType" merged = opt_str_val (scopeType argv')))
          (seeds_iter (seeds argv')) (scopedSeeds argv')
  /\ length (scopedSeeds argv') = length (seeds_iter (seeds argv')).
Proof.
  intros H. cbv zeta. apply validateArgs_fields in H. destruct H as [_ H].
  apply afterCollection_fields in H.
  destruct H as (_ & _ & _ & _ & _ & _ & (Hseeds & _) & _ & Hscope & HF & _).
  rewrite Hseeds, Hscope. split.
  - eapply Forall2_impl; [|exact HF].
    intros s built Hb. exists (merged_options argv s).
    split; [exact Hb|]. split.
    + intros Hnd k. unfold merged_options. now apply spread_get.
    + intros url ->. unfold merged_options, seed_options.
      rewrite !spread_get by (repeat constructor; simpl; tauto).
      split; reflexivity.
  - symmetry. eapply Forall2_length. exact HF.
Qed.

(** X18: resolution leaves the identity and scope inputs as they were
    (crawlId, workers, mobileDevice, seedFile, include, exclude, sitemap,
    depth, extraHops, cwd); without a seed file the seeds stay as given, a
    scalar is not promoted; [behaviors] becomes the list of its tokens; a
    stats file name is resolved against the working directory, and an
    absent or empty one is left alone. *)
Theorem resolution_leaves_the_rest argv out argv' out' :
  validateArgs env argv out = (Ok argv', out') ->
  (crawlId argv' = crawlId argv /\ workers argv' = workers argv
   /\ mobileDevice argv' = mobileDevice argv /\ seedFile argv' = seedFile argv
   /\ include argv' = include argv /\ exclude argv' = exclude argv
   /\ sitemap argv' = sitemap argv /\ depth argv' = depth argv
   /\ extraHops argv' = extraHops argv /\ cwd argv' = cwd argv)
  /\ (seedFile argv = None \/ seedFile argv = Some [] -> seeds argv' = seeds argv)
  /\ behaviors argv' = Arr (wait_tokens (behaviors argv))
  /\ (forall file, statsFilename argv = Some file -> file <> [] ->
        statsFilename argv' = Some (path_resolve env (cwd argv) file))
  /\ (statsFilename argv = None \/ statsFilename argv = Some [] ->
      statsFilename argv' = statsFilename argv).
Proof.
  intros H. apply validateArgs_fields in H. destruct H as [_ H].
  apply afterCollection_fields in H.
  destruct H as (_ & _ & _ & Hb & _ & _ & (Hseeds & _) & _ & _ & _ & Hstats & Hsame & _).
  split; [exact Hsame|]. split; [|split; [exact Hb|split]].
  - intros Hf. rewrite Hseeds. unfold resolved_seeds.
    destruct Hf as [-> | ->]; reflexivity.
  - intros file Ef Hne. rewrite Hstats, Ef.
    destruct file; [contradiction | reflexivity].
  - intros Hf. rewrite Hstats. destruct Hf as [-> | ->]; reflexivity.
Qed.


Lemma overrides_spec inc sc :
  overrides inc sc = true
  <-> include_present inc
      /\ exists requested, sc = Some requested /\ requested <> []
                           /\ requested <> "custom".
Proof.
  unfold overrides. rewrite !andb_true_iff, negb_true_iff, include_given_spec.
  destruct sc as [[|c r]|]; cbn [opt_truthy truthy scope_is].
  - split; [intros [[_ F] _]; discriminate | intros (_ & q & E & Hq & _)].
    inversion E; subst. contradiction.
  - rewrite jstr_eqb_neq. split.
    + intros [[Hi _] Hc]. split; [exact Hi|]. exists (c :: r).
      repeat split; [discriminate | exact Hc].
    + intros (Hi & q & E & _ & Hc). inversion E; subst. auto.
  - split; [intros [[_ F] _]; discriminate | intros (_ & q & E & _)].
    discriminate.
Qed.

(** X20: a successful resolution prints, after what was on the console,
    the lines for dropped screenshot kinds, the concurrency lines, the
    netIdleWait line when the value was -1, and last the scope warning;
    all but the warning are [console.log] lines, and the warning is there
    exactly when an include pattern is present and a scope type other than
    [custom] was requested. *)
Theorem console_output_of_resolution argv out argv' out' :
  validateArgs env argv out = (Ok argv', out') ->
  out' = out ++ transcript env argv
  /\ (forall line, In line (transcript env argv) ->
        line = warn scope_warning \/ exists text, line = log text)
  /\ (In (warn scope_warning) (transcript env argv)
      <-> include_present (include argv)
          /\ exists requested,
               scopeType argv = Some requested /\ requested <> []
               /\ requested <> "custom").
Proof.
  intros H. apply validateArgs_fields in H. destruct H as [_ H].
  apply afterCollection_fields in H.
  destruct H as (_ & _ & _ & _ & _ & _ & _ & _ & _ & _ & _ & _ & Hout).
  split; [exact Hout|].
  assert (Hlogs : forall line,
            In line (screenshot_lines env (screenshot argv)
                     ++ context_lines (newContext argv) (workers argv)
                     ++ idle_lines (netIdleWait argv) (scopeType argv)) ->
            exists text, line = log text).
  { intros line Hin. apply in_app_or in Hin. destruct Hin as [Hin|Hin].
    - unfold screenshot_lines in Hin.
      destruct (screenshot argv) as [text|]; [|contradiction].
      destruct (truthy text); [|contradiction].
      apply in_map_iff in Hin. destruct Hin as (e & <- & _). eexists. reflexivity.
    - apply in_app_or in Hin. destruct Hin as [Hin|Hin].
      + unfold context_lines in Hin. apply in_app_or in Hin.
        destruct Hin as [Hin|Hin].
        * destruct (newContext argv) as [|[|c r]| |]; simpl in Hin;
            try contradiction; destruct Hin as [<-|[]]; eexists; reflexivity.
        * destruct (1 <? workers argv); destruct Hin as [<-|[]];
            eexists; reflexivity.
      + unfold idle_lines in Hin. destruct (netIdleWait argv =? -1);
          [destruct Hin as [<-|[]]; eexists; reflexivity | contradiction]. }
  split.
  - intros line Hin. unfold transcript in Hin. rewrite !app_assoc in Hin.
    apply in_app_or in Hin. destruct Hin as [Hin|Hin].
    + right. apply Hlogs. now rewrite <- !app_assoc in Hin.
    + left. unfold scope_lines in Hin.
      destruct (overrides _ _); [destruct Hin as [<-|[]]; reflexivity | contradiction].
  - rewrite <- overrides_spec. split.
    + intros Hin. unfold transcript in Hin. rewrite !app_assoc in Hin.
      apply in_app_or in Hin. destruct Hin as [Hin|Hin].
      * rewrite <- !app_assoc in Hin. apply Hlogs in Hin.
        destruct Hin as [text F]. discriminate.
      * unfold scope_lines in Hin.
        destruct (overrides _ _); [reflexivity | contradiction].
    + intros Ho. unfold transcript, scope_lines. rewrite Ho.
      apply in_or_app. right. apply in_or_app. right. apply in_or_app. right.
      now left.
Qed.

End MoreResolver.

(* ====================================================================== *)
(** ** The further statements at concrete inputs *)

Lemma sample_resolves1 (a : Argv unit obj) :
  (match fst (Sample.resolve1 a) with Ok _ => true | Throw _ => false end) = true ->
  validateArgs Sample.env1 a [] = (Ok (Sample.resolved1 a), Sample.printed1 a).
Proof.
  unfold Sample.resolved1, Sample.printed1, Sample.resolve1.
  destruct (validateArgs Sample.env1 a []) as [[r|e] o]; simpl;
    [reflexivity | discriminate].
Defined.

Lemma download_returns_what_was_uploaded_witness :
  exists resource w1 w2,
    uploadFile (Sample.sync0 None) "/crawls/a.wacz" "a.wacz" Sample.world0
    = (Ok resource, w1)
    /\ downloadFile (Sample.sync0 None) "a.wacz" "/tmp/b.wacz" w1 = (Ok tt, w2)
    /\ files w2 "/tmp/b.wacz" = Some Sample.abc.
Proof.
  destruct (proj1 (@download_returns_what_was_uploaded (Sample.sync0 None)
                     "/crawls/a.wacz" "a.wacz" "/tmp/b.wacz" Sample.abc
                     Sample.world0 eq_refl eq_refl))
    as (resource & w1 & w2 & H1 & H2 & H3 & _).
  exists resource, w1, w2. auto.
Defined.

Lemma failed_upload_stops_everything_witness :
  exists w',
    uploadCollWACZ (Sample.sync0 (Some "redis://h:6379/0/mykey"))
                   "/crawls/missing.wacz" "a.wacz" None Sample.world0
    = (Throw (FsError "/crawls/missing.wacz"), w')
    /\ lists w' = lists Sample.world0.
Proof.
  destruct (@failed_upload_stops_everything
              (Sample.sync0 (Some "redis://h:6379/0/mykey"))
              "/crawls/missing.wacz" "a.wacz" None Sample.world0
              (or_introl eq_refl))
    as (e & w' & Hrun & -> & _ & _ & Hl).
  exists w'. split; [exact Hrun | exact Hl].
Defined.

Lemma no_webhook_no_notification_witness :
  filter is_dispatch
    (trace (snd (uploadCollWACZ (Sample.sync0 (Some "")) "/crawls/a.wacz"
                                "a.wacz" None Sample.world0)))
  = [].
Proof.
  rewrite (@no_webhook_no_notification (Sample.sync0 (Some "")) "/crawls/a.wacz"
             "a.wacz" None Sample.abc Sample.world0 eq_refl eq_refl eq_refl).
  reflexivity.
Defined.

Lemma http_webhook_posts_once_witness :
  fst (notify (Sample.sync1 (Some "https://example.org/hook")) "a.wacz"
              Sample.resource0 true Sample.world0)
  = Ok tt.
Proof.
  rewrite (proj1 (@http_webhook_posts_once
                    (Sample.sync1 (Some "https://example.org/hook")) "a.wacz"
                    Sample.resource0 true "https://example.org/hook" Sample.world0
                    eq_refl eq_refl)).
  reflexivity.
Defined.

Lemma redis_connection_and_key_recompose_witness :
  exists conn key payload w',
    notify (Sample.sync1 (Some "redis://h:6379/0/mykey")) "a.wacz"
           Sample.resource0 true Sample.world0 = (Ok tt, w')
    /\ trace w'
       = trace Sample.world0
         ++ [ConsoleLog ("Pinging Webhook: " ++ "redis://h:6379/0/mykey");
             InitRedis conn; RPush conn key payload]
    /\ conn ++ "/" ++ key = "redis://h:6379/0/mykey"
    /\ ~ In "/"%char key.
Proof.
  apply (@redis_connection_and_key_recompose
           (Sample.sync1 (Some "redis://h:6379/0/mykey")) "a.wacz"
           Sample.resource0 true "redis://h:6379/0/mykey" Sample.world0
           eq_refl eq_refl eq_refl).
  right. reflexivity.
Defined.


Lemma initStorage_reads_the_environment_witness :
  exists id,
    Storage.crawlId (Sample.sync0 None) = Some id /\ id <> []
    /\ userId (Sample.sync0 None) = None.
Proof.
  destruct (proj2 (@initStorage_reads_the_environment Sample.new_URL0 (fun u => u)
                     (Sample.process_env0 None) "crawler-host-0123456789"
                     Sample.world0 ltac:(discriminate))
                  (Sample.sync0 None)
                  (after (ConsoleLog "Initing Storage...") Sample.world0)
                  eq_refl)
    as (id & url & H1 & H2 & _ & H4 & _).
  exists id. auto.
Defined.

Lemma crawl_args_are_appended_witness :
  exists words,
    effective_argv (Some ["node"; "crawler"]) [] (Some "--workers 2  --text")
    = ["node"; "crawler"] ++ words
    /\ join " " words = "--workers 2  --text"
    /\ words <> []
    /\ Forall (fun word => ~ In " "%char word) words.
Proof.
  apply (proj2 (@crawl_args_are_appended (Some ["node"; "crawler"]) []
                  (Some "--workers 2  --text"))
               "--workers 2  --text" eq_refl).
  discriminate.
Defined.

Lemma template_without_tokens_is_unchanged_witness :
  interpolateFilename Sample.host0 "my-collection" "c1" = "my-collection".
Proof.
  apply template_without_tokens_is_unchanged. simpl. intuition discriminate.
Defined.

Lemma default_collection_name_is_valid_witness :
  interpolateFilename Sample.host0 "crawl-@ts" "c1" = "crawl-20230405060708123"
  /\ search_anchored collection_rx
       (interpolateFilename Sample.host0 "crawl-@ts" "c1") = 0%Z.
Proof.
  destruct (proj2 (@default_collection_name_is_valid Sample.host0 "c1") eq_refl)
    as (H1 & _ & H3).
  split; [rewrite H1; reflexivity | exact H3].
Defined.

Lemma single_token_templates_witness :
  interpolateFilename Sample.host0 "@hostname" "c1" = "crawler-host-0123456789"
  /\ interpolateFilename Sample.host0 "@id" "c1" = "c1".
Proof.
  destruct (@single_token_templates Sample.host0 "c1"
              ltac:(split; simpl; intuition discriminate))
    as (H1 & H2 & _).
  split; [exact H1 | apply H2; simpl; intuition discriminate].
Defined.

Lemma waitUntil_tokens_are_validated_witness :
  waitUntil (Sample.resolved1 Sample.busy) = Arr ["load"; "networkidle0"]
  /\ validateArgs Sample.env1
       (Sample.bag (Str "") (Str "") (Str "autoscroll") 0 1 None None (SeedsArr []))
       []
     = (Throw (Error waitUntil_error), []).
Proof.
  split.
  - apply (proj1 (@waitUntil_tokens_are_validated _ _ Sample.env1 Sample.busy [])
                 _ _ (sample_resolves1 Sample.busy eq_refl)).
  - apply (proj2 (@waitUntil_tokens_are_validated _ _ Sample.env1
                    (Sample.bag (Str "") (Str "") (Str "autoscroll") 0 1 None None
                                (SeedsArr [])) [])).
    + reflexivity.
    + exists "". split; [simpl; tauto | simpl; intuition discriminate].
Defined.


Lemma concurrency_follows_workers_witness :
  newContext (Sample.resolved1 Sample.busy) = ReuseWindowConcurrency.
Proof.
  apply (proj1 (@concurrency_follows_workers _ _ Sample.env1 Sample.busy []
                  _ _ (sample_resolves1 Sample.busy eq_refl))).
  reflexivity.
Defined.



Lemma scoped_seeds_merge_shared_options_witness :
  length (scopedSeeds (Sample.resolved1 Sample.busy)) = 2%nat.
Proof.
  rewrite (proj2 (@scoped_seeds_merge_shared_options _ _ Sample.env1 Sample.busy []
                    _ _ (sample_resolves1 Sample.busy eq_refl))).
  reflexivity.
Defined.

Lemma resolution_leaves_the_rest_witness :
  statsFilename (Sample.resolved1 Sample.busy) = Some "/crawls/stats.json"
  /\ seeds (Sample.resolved1 Sample.busy) = seeds Sample.busy.
Proof.
  destruct (@resolution_leaves_the_rest _ _ Sample.env1 Sample.busy []
              _ _ (sample_resolves1 Sample.busy eq_refl))
    as (_ & Hseeds & _ & Hstats & _).
  split.
  - rewrite (Hstats "stats.json" eq_refl ltac:(discriminate)). reflexivity.
  - apply Hseeds. left. reflexivity.
Defined.


Lemma console_output_of_resolution_witness :
  Sample.printed1 Sample.busy = [] ++ transcript Sample.env1 Sample.busy
  /\ In (warn scope_warning) (transcript Sample.env1 Sample.busy).
Proof.
  destruct (@console_output_of_resolution _ _ Sample.env1 Sample.busy []
              _ _ (sample_resolves1 Sample.busy eq_refl))
    as (Hout & _ & Hwarn).
  split; [exact Hout|]. apply Hwarn.
  split; [discriminate|]. exists "host". repeat split; discriminate.
Defined.
